(** * StoryMap: the scroll-driven globe of [src/App.tsx]

    A shallow embedding of the [StoryMap] component: the chapter catalog
    [LAYERS], the session state held in React [useState] cells, the event
    handlers, the two reactive effects (idle auto-rotation and camera
    fly-to) and the declarative overlay rendering.

    Conventions.
    - A JavaScript [number] is a binary64 value; it is represented by the
      rational it denotes ([Q]; the engine hands out finite numbers, so
      NaN and the infinities have no representative).  A literal that is
      only stored and passed on is kept as it is written in the source
      (0.7 stands for the value of the literal 0.7); the arithmetic of
      [spinGlobe] rounds each result to the nearest binary64 value, ties
      to even ([fl]).  The easing functions handed to the engine are
      given by the real functions they compute.
    - The map engine (mapbox-gl) is a third-party widget.  It is modelled
      through the interface the component uses: the camera it exposes, the
      listener registry behind [map.on] / [map.off], and the commands
      [stop], [easeTo], [flyTo], which are recorded in issue order.  The
      notifications of the engine arrive as separate events, in any
      order; the [moveend] the engine sends when a command cuts an
      animation short is one of them. *)

From Stdlib Require Import List String Bool Arith ZArith QArith Qminmax Qround Qpower Lia Lqa.
Import ListNotations.
Open Scope string_scope.
Open Scope list_scope.

(** ** Chapter catalog *)

Record View := { latitude : Q; longitude : Q; zoom : Q }.

Record LayerDef := {
  id : string;
  name : string;
  url : option string;
  opacity : option Q;
  description : string;
  view : View
}.

Definition LAYERS : list LayerDef := [
  {| id := "intro-globe";
     name := "Full Earth View";
     url := None; opacity := None;
     description := "The story begins with the entire Earth — zoom in to explore specific phenomena.";
     view := {| latitude := 0; longitude := 0; zoom := 2 |} |};
  {| id := "total-methane";
     name := "Methane (EPA total)";
     url := Some "https://earth.gov/ghgcenter/api/raster/searches/92ef8a307eaf0dd5c1403e04b414b712/tiles/WebMercatorQuad/{z}/{x}/{y}?assets=total-methane&rescale=0,20&colormap_name=epa-ghgi-ch4";
     opacity := Some 0.7%Q;
     description := "Global methane emissions from human and natural sources — focusing on the United States.";
     view := {| latitude := 37.5; longitude := -95; zoom := 2.8 |} |};
  {| id := "no2-monthly";
     name := "Nitrogen dioxide (NO₂)";
     url := Some "https://openveda.cloud/api/raster/searches/54f6090e54cf744b4db5b037be979254/tiles/WebMercatorQuad/{z}/{x}/{y}?assets=cog_default&bidx=1&colormap_name=rdbu_r&rescale=0%2C15000000000000000";
     opacity := Some 0.6%Q;
     description := "Satellite-derived NO₂ showing air pollution hotspots — centered on New York.";
     view := {| latitude := 40.7128; longitude := -74.006; zoom := 6.5 |} |};
  {| id := "days-above-90f";
     name := "Days above 90°F (CMIP6 SSP245)";
     url := Some "https://openveda.cloud/api/raster/searches/05508f8b6bee59b2007bb1a338f64001/tiles/WebMercatorQuad/{z}/{x}/{y}?assets=tmax_above_90&colormap_name=wistia&rescale=0%2C365";
     opacity := Some 0.45%Q;
     description := "Projected annual count of days exceeding 90°F under a mid-range scenario.";
     view := {| latitude := 25; longitude := -100; zoom := 3.2 |} |};
  {| id := "geoglam";
     name := "Crop conditions (GEOGLAM)";
     url := Some "https://openveda.cloud/api/raster/searches/b8b84be08e9be485e882321a29bcc36e/tiles/WebMercatorQuad/{z}/{x}/{y}?assets=cog_default&colormap=%7B%221%22%3A+%5B120%2C+120%2C+120%5D%2C+%222%22%3A+%5B130%2C+65%2C+0%5D%2C+%223%22%3A+%5B66%2C+207%2C+56%5D%2C+%224%22%3A+%5B245%2C+239%2C+0%5D%2C+%225%22%3A+%5B241%2C+89%2C+32%5D%2C+%226%22%3A+%5B168%2C+0%2C+0%5D%2C+%227%22%3A+%5B0%2C+143%2C+201%5D%7D&resampling=nearest";
     opacity := Some 0.5%Q;
     description := "Global crop monitoring data showing strong and weak agricultural performance.";
     view := {| latitude := 10; longitude := 30; zoom := 2 |} |};
  {| id := "grdi-v1";
     name := "Global deprivation index (GRDI)";
     url := Some "https://openveda.cloud/api/raster/searches/2e402f857dd5363f04809920c76793b2/tiles/WebMercatorQuad/{z}/{x}/{y}?assets=cog_default&colormap_name=viridis";
     opacity := Some 0.4%Q;
     description := "Mapping global deprivation — focusing on India’s socioeconomic diversity.";
     view := {| latitude := 21; longitude := 78; zoom := 3.8 |} |};
  {| id := "poi-showcase";
     name := "Global Points of Interest";
     url := None; opacity := None;
     description := "Cities rendered as glowing points with labels.";
     view := {| latitude := 20; longitude := 0; zoom := 1.8 |} |};
  {| id := "finale";
     name := "Back to the Globe";
     url := None; opacity := None;
     description := "Returning to a full-Earth perspective for free exploration.";
     view := {| latitude := 0; longitude := 0; zoom := 1.3 |} |}
].

(** [LAYERS[0]], the initial value of the [activeLayer] cell. *)
Definition LAYERS_0 : LayerDef := hd
  {| id := ""; name := ""; url := None; opacity := None; description := "";
     view := {| latitude := 0; longitude := 0; zoom := 0 |} |} LAYERS.

(** [LAYERS.find((l) => l.id === chapterId)]: first entry with that id. *)
Definition find_layer (chapterId : string) : option LayerDef :=
  find (fun l => String.eqb (id l) chapterId) LAYERS.

(** [activeLayer] only ever holds an element of [LAYERS]; the entries are
    distinct objects with distinct ids, so reference identity ([Object.is],
    used by React to compare dependencies) is decided on the id. *)
Definition same_object (a b : LayerDef) : bool := String.eqb (id a) (id b).

(** ** Scroll events (react-scrollama's [StepEnterEvent<{ id: string }>]) *)

Inductive Direction := up | down.

Record IntersectionObserverEntry := {
  isIntersecting : bool;
  intersectionRatio : Q
}.

Record StepData := { data_id : string }.

Record StepEnterEvent := {
  data : StepData;
  direction : Direction;
  entry : IntersectionObserverEntry;
  index : Z
}.

(** ** Session state: the [useState] cells of the component *)

Record Session := {
  activeLayer : LayerDef;
  visibleId : option string;
  freeMode : bool;
  isMobile : bool;
  mapLoaded : bool
}.

Definition setActiveLayer (l : LayerDef) (s : Session) : Session :=
  {| activeLayer := l; visibleId := visibleId s; freeMode := freeMode s;
     isMobile := isMobile s; mapLoaded := mapLoaded s |}.

Definition setVisibleId (v : option string) (s : Session) : Session :=
  {| activeLayer := activeLayer s; visibleId := v; freeMode := freeMode s;
     isMobile := isMobile s; mapLoaded := mapLoaded s |}.

(** [setFreeMode] takes an updater, as in [setFreeMode((v) => !v)]. *)
Definition setFreeMode (f : bool -> bool) (s : Session) : Session :=
  {| activeLayer := activeLayer s; visibleId := visibleId s;
     freeMode := f (freeMode s);
     isMobile := isMobile s; mapLoaded := mapLoaded s |}.

Definition setIsMobile (b : bool) (s : Session) : Session :=
  {| activeLayer := activeLayer s; visibleId := visibleId s;
     freeMode := freeMode s; isMobile := b; mapLoaded := mapLoaded s |}.

Definition setMapLoaded (b : bool) (s : Session) : Session :=
  {| activeLayer := activeLayer s; visibleId := visibleId s;
     freeMode := freeMode s; isMobile := isMobile s; mapLoaded := b |}.

(** The state of the first render. *)
Definition initial_session : Session :=
  {| activeLayer := LAYERS_0; visibleId := None; freeMode := false;
     isMobile := false; mapLoaded := false |}.

(** ** Handlers *)

(** [handleStepEnter], the [onStepEnter] callback of the scroll panel
    (the spec's [advanceTo]). *)
Definition handleStepEnter (e : StepEnterEvent) (s : Session) : Session :=
  if freeMode s then s
  else match find_layer (data_id (data e)) with
       | Some next => setVisibleId (Some (data_id (data e))) (setActiveLayer next s)
       | None => s
       end.

(** The free-mode toggle: both buttons carry
    [onClick={() => setFreeMode((v) => !v)}]. *)
Definition toggleFreeMode (s : Session) : Session := setFreeMode negb s.

(** The chapter picker: one clickable element per catalog entry, keyed by
    the entry's id, whose [onClick] is [() => setActiveLayer(l)]. *)
Definition chapterPicker : list (string * (Session -> Session)) :=
  map (fun l => (id l, setActiveLayer l)) LAYERS.

(** A click on the picker element keyed [chapterId] (the spec's
    [selectChapter]).  The picker has no element for an id outside the
    catalog, so no handler runs for it. *)
Definition selectChapter (chapterId : string) (s : Session) : Session :=
  match find (fun kh => String.eqb (fst kh) chapterId) chapterPicker with
  | Some kh => snd kh s
  | None => s
  end.

(** ** Numbers: binary64 arithmetic *)

Definition pow2 (k : Z) : Q := 2 ^ k.

(** The binary exponent of a positive number: [2^(mag x) <= x < 2^(mag x + 1)]. *)
Definition mag (x : Q) : Z :=
  let e := (Z.log2 (Qnum x) - Z.log2 (Zpos (Qden x)))%Z in
  if Qle_bool (pow2 e) x then e else (e - 1)%Z.

(** The exponent of the last place of a binary64 number of binary
    exponent [e]: 53 significant bits, subnormals from [2^-1074]. *)
Definition ulp_exp (e : Z) : Z := Z.max (e - 52) (-1074).

(** The nearest integer, ties to the even one. *)
Definition rne (t : Q) : Z :=
  let f := Qfloor t in
  match Qcompare (t - inject_Z f) (1 # 2) with
  | Lt => f
  | Gt => (f + 1)%Z
  | Eq => if Z.even f then f else (f + 1)%Z
  end.

Definition round_pos (x : Q) : Q :=
  let j := ulp_exp (mag x) in
  inject_Z (rne (x / pow2 j)) * pow2 j.

(** Rounding to the nearest binary64 value, ties to even. *)
Definition fl (x : Q) : Q :=
  match Qcompare x 0 with
  | Eq => 0
  | Gt => round_pos x
  | Lt => - round_pos (- x)
  end.

(** The rationals that are binary64 values. *)
Definition binary64 (x : Q) : Prop := fl x == x.

(** [x - y], [x * y] and [x / y] on numbers. *)
Definition js_sub (x y : Q) : Q := fl (x - y).
Definition js_mul (x y : Q) : Q := fl (x * y).
Definition js_div (x y : Q) : Q := fl (x / y).

Arguments fl : simpl never.
Arguments js_sub : simpl never.
Arguments js_mul : simpl never.
Arguments js_div : simpl never.

(** ** The map engine, as the component sees it *)

Inductive EventType := mousedown | mouseup | dragend | pitchend | rotateend | moveend.

(** The three callbacks an auto-rotation effect run creates. *)
Inductive Callback := cb_pause | cb_resume | cb_spinGlobe.

(** A registered function is a closure: the callback together with the
    effect run that created it (each run has its own [userInteracting]). *)
Record Closure := { run_of : nat; code_of : Callback }.

Record Listener := { on_event : EventType; handler : Closure }.

Definition EventType_eqb (a b : EventType) : bool :=
  match a, b with
  | mousedown, mousedown | mouseup, mouseup | dragend, dragend
  | pitchend, pitchend | rotateend, rotateend | moveend, moveend => true
  | _, _ => false
  end.

Definition Callback_eqb (a b : Callback) : bool :=
  match a, b with
  | cb_pause, cb_pause | cb_resume, cb_resume | cb_spinGlobe, cb_spinGlobe => true
  | _, _ => false
  end.

Definition Closure_eqb (a b : Closure) : bool :=
  Nat.eqb (run_of a) (run_of b) && Callback_eqb (code_of a) (code_of b).

Definition Listener_eqb (a b : Listener) : bool :=
  EventType_eqb (on_event a) (on_event b) && Closure_eqb (handler a) (handler b).

Record LngLat := { lng : Q; lat : Q }.

Record EaseToOptions := {
  ease_center : LngLat;
  duration : Q;
  ease_easing : Q -> Q;
  essential : bool
}.

Record FlyToOptions := {
  fly_center : Q * Q;
  fly_zoom : Q;
  pitch : Q;
  bearing : Q;
  speed : Q;
  curve : Q;
  fly_easing : Q -> Q
}.

Inductive Command :=
| Stop
| EaseTo (o : EaseToOptions)
| FlyTo (o : FlyToOptions).

Record MapEngine := {
  getZoom : Q;
  getCenter : LngLat;
  listeners : list Listener;
  (** the animation under way, if any: started by [easeTo] / [flyTo],
      replaced by the next one, ended by [stop] or by its completion *)
  animation : option Command;
  (** every command received, oldest first *)
  issued : list Command
}.

Definition map_stop (m : MapEngine) : MapEngine :=
  {| getZoom := getZoom m; getCenter := getCenter m; listeners := listeners m;
     animation := None; issued := issued m ++ [Stop] |}.

Definition map_easeTo (o : EaseToOptions) (m : MapEngine) : MapEngine :=
  {| getZoom := getZoom m; getCenter := getCenter m; listeners := listeners m;
     animation := Some (EaseTo o); issued := issued m ++ [EaseTo o] |}.

Definition map_flyTo (o : FlyToOptions) (m : MapEngine) : MapEngine :=
  {| getZoom := getZoom m; getCenter := getCenter m; listeners := listeners m;
     animation := Some (FlyTo o); issued := issued m ++ [FlyTo o] |}.

(** [map.on(type, fn)] appends a listener. *)
Definition map_on (t : EventType) (fn : Closure) (m : MapEngine) : MapEngine :=
  {| getZoom := getZoom m; getCenter := getCenter m;
     listeners := listeners m ++ [{| on_event := t; handler := fn |}];
     animation := animation m; issued := issued m |}.

Fixpoint remove_first (x : Listener) (l : list Listener) : list Listener :=
  match l with
  | [] => []
  | y :: tl => if Listener_eqb x y then tl else y :: remove_first x tl
  end.

(** [map.off(type, fn)] removes that function from that event's list. *)
Definition map_off (t : EventType) (fn : Closure) (m : MapEngine) : MapEngine :=
  {| getZoom := getZoom m; getCenter := getCenter m;
     listeners := remove_first {| on_event := t; handler := fn |} (listeners m);
     animation := animation m; issued := issued m |}.

(** ** The component instance *)

Record World := {
  session : Session;
  (** [mapRef.current !== null] *)
  mapRef : bool;
  engine : MapEngine;
  (** the [let userInteracting] of each auto-rotation effect run *)
  userInteracting : nat -> bool;
  (** number of auto-rotation effect runs that registered callbacks *)
  effect_runs : nat;
  (** the cleanup React holds for the auto-rotation effect: the run whose
      returned function is pending, if the last run returned one *)
  rotation_cleanup : option nat
}.

Definition with_session (f : Session -> Session) (w : World) : World :=
  {| session := f (session w); mapRef := mapRef w; engine := engine w;
     userInteracting := userInteracting w; effect_runs := effect_runs w;
     rotation_cleanup := rotation_cleanup w |}.

Definition with_engine (f : MapEngine -> MapEngine) (w : World) : World :=
  {| session := session w; mapRef := mapRef w; engine := f (engine w);
     userInteracting := userInteracting w; effect_runs := effect_runs w;
     rotation_cleanup := rotation_cleanup w |}.

Definition set_mapRef (b : bool) (w : World) : World :=
  {| session := session w; mapRef := b; engine := engine w;
     userInteracting := userInteracting w; effect_runs := effect_runs w;
     rotation_cleanup := rotation_cleanup w |}.

Definition set_userInteracting (i : nat) (b : bool) (w : World) : World :=
  {| session := session w; mapRef := mapRef w; engine := engine w;
     userInteracting := fun j => if Nat.eqb j i then b else userInteracting w j;
     effect_runs := effect_runs w; rotation_cleanup := rotation_cleanup w |}.

Definition set_cleanup (c : option nat) (w : World) : World :=
  {| session := session w; mapRef := mapRef w; engine := engine w;
     userInteracting := userInteracting w; effect_runs := effect_runs w;
     rotation_cleanup := c |}.

Definition new_run (w : World) : World :=
  {| session := session w; mapRef := mapRef w; engine := engine w;
     userInteracting := userInteracting w; effect_runs := S (effect_runs w);
     rotation_cleanup := rotation_cleanup w |}.

(** ** Idle auto-rotation effect, [useEffect(..., [mapLoaded, activeLayer.id])] *)

Definition secondsPerRevolution : Q := 120.
Definition maxSpinZoom : Q := 5.
Definition slowSpinZoom : Q := 3.
Definition spinEnabled : bool := true.

(** [a >= b] and [a > b] on numbers. *)
Definition Qge_bool (a b : Q) : bool := Qle_bool b a.
Definition Qgt_bool (a b : Q) : bool := negb (Qle_bool a b).

(** [spinGlobe] of effect run [i]. *)
Definition spinGlobe (i : nat) (w : World) : World :=
  if negb spinEnabled || userInteracting w i then w
  else
    let zoom := getZoom (engine w) in
    if Qge_bool zoom maxSpinZoom then w
    else
      let distancePerSecond := js_div 360 secondsPerRevolution in
      let distancePerSecond :=
        if Qgt_bool zoom slowSpinZoom then
          let zoomFactor :=
            js_div (js_sub maxSpinZoom zoom) (js_sub maxSpinZoom slowSpinZoom) in
          js_mul distancePerSecond (Qmax 0 zoomFactor)
        else distancePerSecond in
      let center := getCenter (engine w) in
      let center :=
        {| lng := js_sub (lng center) distancePerSecond; lat := lat center |} in
      with_engine
        (map_easeTo {| ease_center := center; duration := 1000;
                       ease_easing := fun n => n; essential := true |}) w.

Definition pause (i : nat) (w : World) : World :=
  with_engine map_stop (set_userInteracting i true w).

Definition resume (i : nat) (w : World) : World :=
  spinGlobe i (set_userInteracting i false w).

Definition closure (i : nat) (c : Callback) : Closure :=
  {| run_of := i; code_of := c |}.

(** The effect body.  It leaves in [rotation_cleanup] the function it
    returns ([None] for the three early [return]s). *)
Definition rotationEffect (w : World) : World :=
  if negb (mapLoaded (session w)) then set_cleanup None w
  else if negb (mapRef w) then set_cleanup None w
  else if negb (String.eqb (id (activeLayer (session w))) "intro-globe") then
    set_cleanup None (with_engine map_stop w)
  else
    let i := effect_runs w in
    let w := set_userInteracting i false (new_run w) in
    let w := with_engine (map_on mousedown (closure i cb_pause)) w in
    let w := with_engine (map_on mouseup (closure i cb_resume)) w in
    let w := with_engine (map_on dragend (closure i cb_resume)) w in
    let w := with_engine (map_on pitchend (closure i cb_resume)) w in
    let w := with_engine (map_on rotateend (closure i cb_resume)) w in
    let w := with_engine (map_on moveend (closure i cb_spinGlobe)) w in
    let w := spinGlobe i w in
    set_cleanup (Some i) w.

(** The function returned by run [i] of the effect. *)
Definition rotationCleanup (i : nat) (w : World) : World :=
  let w := with_engine (map_off mousedown (closure i cb_pause)) w in
  let w := with_engine (map_off mouseup (closure i cb_resume)) w in
  let w := with_engine (map_off dragend (closure i cb_resume)) w in
  let w := with_engine (map_off pitchend (closure i cb_resume)) w in
  let w := with_engine (map_off rotateend (closure i cb_resume)) w in
  let w := with_engine (map_off moveend (closure i cb_spinGlobe)) w in
  with_engine map_stop w.

(** ** Camera transition effect, [useEffect(..., [activeLayer])] *)

(** The options object handed to [map.flyTo] for chapter [a]. *)
Definition flyTo_options (a : LayerDef) : FlyToOptions :=
  {| fly_center := (longitude (view a), latitude (view a));
     fly_zoom := zoom (view a);
     pitch := 20;
     bearing := 0;
     speed := 0.6;
     curve := 1.4;
     fly_easing := fun t => 1 - (1 - t) ^ 3 |}.

Definition flyToEffect (w : World) : World :=
  if negb (mapRef w) then w
  else with_engine (map_flyTo (flyTo_options (activeLayer (session w)))) w.

(** ** React: re-render and effects *)

(** After a state update React re-renders and, for each effect whose
    dependency array changed, runs the pending cleanup and then the
    effect: first the cleanups, then the effect bodies in source order.
    [prev] is the session of the previous render. *)
Definition commit (prev : Session) (w : World) : World :=
  let s := session w in
  let rotation_deps_same :=
    Bool.eqb (mapLoaded prev) (mapLoaded s)
    && String.eqb (id (activeLayer prev)) (id (activeLayer s)) in
  let flyTo_deps_same := same_object (activeLayer prev) (activeLayer s) in
  let w :=
    if rotation_deps_same then w
    else match rotation_cleanup w with
         | Some i => set_cleanup None (rotationCleanup i w)
         | None => w
         end in
  let w := if rotation_deps_same then w else rotationEffect w in
  if flyTo_deps_same then w else flyToEffect w.

(** A state update by [f] followed by the re-render it causes. *)
Definition update (f : Session -> Session) (w : World) : World :=
  commit (session w) (with_session f w).

(** The engine before the component has issued anything. *)
Definition fresh_engine (z : Q) (c : LngLat) : MapEngine :=
  {| getZoom := z; getCenter := c; listeners := []; animation := None; issued := [] |}.

(** Mount: first render, ref callback, then the three effects in source
    order.  [initialViewState] places the camera on [activeLayer.view].
    [mobile] is the outcome of the user-agent test; [ref] tells whether
    the widget's ref already yields the map ([ref?.getMap?.() ?? null]). *)
Definition mount (mobile ref : bool) : World :=
  let v := view (activeLayer initial_session) in
  let w := {| session := initial_session; mapRef := ref;
              engine := fresh_engine (zoom v)
                          {| lng := longitude v; lat := latitude v |};
              userInteracting := fun _ => false; effect_runs := 0%nat;
              rotation_cleanup := None |} in
  let w := rotationEffect w in
  let w := flyToEffect w in
  (* the state updates queued by the first effect: neither dependency
     array changes, so its re-render runs no effect *)
  let w := update (setIsMobile mobile) w in
  if mobile then update (setFreeMode (fun _ => true)) w else w.

(** ** Events *)

Inductive Event :=
| RefCallback (available : bool)
| OnLoad
| StepEnter (e : StepEnterEvent)
| ToggleClick
| PickerClick (chapterId : string)
| MapEvent (t : EventType)
| CameraMoved (z : Q) (c : LngLat).

(** The conditional rendering of the controls. *)
Definition toggle_rendered (s : Session) : bool := negb (isMobile s).
Definition scroll_panel_rendered (s : Session) : bool :=
  negb (freeMode s) && negb (isMobile s).
Definition picker_rendered (s : Session) : bool := freeMode s.

Definition call (fn : Closure) (w : World) : World :=
  match code_of fn with
  | cb_pause => pause (run_of fn) w
  | cb_resume => resume (run_of fn) w
  | cb_spinGlobe => spinGlobe (run_of fn) w
  end.

(** The engine fires [t]: the functions registered for [t] at that moment
    run in registration order. *)
Definition fire (t : EventType) (w : World) : World :=
  fold_left
    (fun w l => if EventType_eqb (on_event l) t then call (handler l) w else w)
    (listeners (engine w)) w.

Definition end_animation (m : MapEngine) : MapEngine :=
  {| getZoom := getZoom m; getCenter := getCenter m; listeners := listeners m;
     animation := None; issued := issued m |}.

Definition move_camera (z : Q) (c : LngLat) (m : MapEngine) : MapEngine :=
  {| getZoom := z; getCenter := c; listeners := listeners m;
     animation := animation m; issued := issued m |}.

Definition step (w : World) (ev : Event) : World :=
  match ev with
  | RefCallback b => set_mapRef b w
  | OnLoad => update (setMapLoaded true) (set_mapRef true w)
  | StepEnter e =>
      if scroll_panel_rendered (session w) then update (handleStepEnter e) w else w
  | ToggleClick =>
      if toggle_rendered (session w) then update toggleFreeMode w else w
  | PickerClick chapterId =>
      if picker_rendered (session w) then update (selectChapter chapterId) w else w
  | MapEvent moveend => fire moveend (with_engine end_animation w)
  | MapEvent t => fire t w
  | CameraMoved z c => with_engine (move_camera z c) w
  end.

Definition run (evs : list Event) (w : World) : World := fold_left step evs w.

(** ** Overlay and mask rendering: the children of [<Map>] *)

Definition POI_GEOJSON : list (string * (Q * Q)) := [
  ("New York City", (-74.006, 40.7128));
  ("Delhi", (77.209, 28.6139));
  ("Cairo", (31.2357, 30.0444));
  ("São Paulo", (-46.6339, -23.5505));
  ("Tokyo", (139.6917, 35.6895))
].

Inductive MapChild :=
(** [<Source id="main-source" type="raster">] with its [main-layer] *)
| RasterSource (tiles : list string) (tileSize : Q) (raster_opacity : Q)
(** [<Source id="country-mask">]: [world-fade] and [country-glow] for [code] *)
| CountryMask (code : string)
(** [<Source id="pois">] with its line, circle and label layers *)
| POIs (features : list (string * (Q * Q))).

(** Truthiness of an optional string: defined and not empty. *)
Definition truthy (u : option string) : bool :=
  match u with
  | Some EmptyString | None => false
  | Some _ => true
  end.

(** [{activeLayer.url && (<Source ...>)}] *)
Definition renderRaster (s : Session) : option MapChild :=
  let a := activeLayer s in
  if truthy (url a) then
    match url a with
    | Some u =>
        Some (RasterSource [u] 256
                (match opacity a with Some o => o | None => 0.6 end))
    | None => None
    end
  else None.

Definition includes (x : string) (l : list string) : bool :=
  existsb (String.eqb x) l.

Definition renderCountryMask (s : Session) : option MapChild :=
  if freeMode s then None
  else if negb (includes (id (activeLayer s)) ["total-methane"; "grdi-v1"]) then None
  else
    let code := if String.eqb (id (activeLayer s)) "total-methane" then "USA" else "IND" in
    Some (CountryMask code).

Definition renderPOIs (s : Session) : option MapChild :=
  if negb (String.eqb (id (activeLayer s)) "poi-showcase") then None
  else Some (POIs POI_GEOJSON).

Definition option_to_list {A} (o : option A) : list A :=
  match o with Some x => [x] | None => [] end.

(** The overlay children, in source order. *)
Definition render_overlays (s : Session) : list MapChild :=
  option_to_list (renderRaster s)
  ++ option_to_list (renderCountryMask s)
  ++ option_to_list (renderPOIs s).

(** ** Device detection, [useEffect(..., [])] *)

(** Case folding of the [i] flag on the characters a user-agent string
    can share with the pattern: an ASCII lower-case letter folds to its
    upper-case letter, anything else to itself. *)
Definition canonicalize (c : Ascii.ascii) : Ascii.ascii :=
  let n := Ascii.nat_of_ascii c in
  if Nat.leb 97 n && Nat.leb n 122 then Ascii.ascii_of_nat (n - 32) else c.

(** The pattern matches at the start of the subject. *)
Fixpoint matches_here (pattern subject : string) : bool :=
  match pattern with
  | EmptyString => true
  | String p pattern' =>
      match subject with
      | EmptyString => false
      | String c subject' =>
          Ascii.eqb (canonicalize p) (canonicalize c) && matches_here pattern' subject'
      end
  end.

(** The pattern matches somewhere in the subject (no anchors). *)
Fixpoint matches_somewhere (pattern subject : string) : bool :=
  matches_here pattern subject
  || match subject with
     | EmptyString => false
     | String _ subject' => matches_somewhere pattern subject'
     end.

(** [/Mobi|Android/i.test(userAgent)] *)
Definition test_Mobi_Android (userAgent : string) : bool :=
  matches_somewhere "Mobi" userAgent || matches_somewhere "Android" userAgent.

(** Mount in a browser whose [navigator.userAgent] is [userAgent]. *)
Definition mount_in (userAgent : string) (ref : bool) : World :=
  mount (test_Mobi_Android userAgent) ref.

(** ** The controls around the map *)

(** One [<Step>] of the scroll panel. *)
Record StepView := {
  step_key : string;
  step_data : StepData;
  step_opacity : Q;
  step_transform : string;
  heading_color : string;
  heading : string;
  paragraph : string
}.

Definition render_step (s : Session) (l : LayerDef) : StepView :=
  let shown := match visibleId s with
               | Some v => String.eqb v (id l)
               | None => false
               end in
  {| step_key := id l;
     step_data := {| data_id := id l |};
     step_opacity := if shown then 1 else 0;
     step_transform := if shown then "translateY(0)" else "translateY(10px)";
     heading_color := if shown then "#ffcc66" else "#ddd";
     heading := name l;
     paragraph := description l |}.

(** One entry of the chapter picker. *)
Record PickerItem := {
  item_key : string;
  onClick : Session -> Session;
  item_background : string;
  item_border : string;
  label_color : string;
  item_label : string
}.

Definition render_item (s : Session) (l : LayerDef) : PickerItem :=
  let active := String.eqb (id (activeLayer s)) (id l) in
  {| item_key := id l;
     onClick := setActiveLayer l;
     item_background := if active then "rgba(255,204,102,0.25)" else "rgba(40,40,40,0.4)";
     item_border := if active then "1px solid #ffcc66" else "1px solid transparent";
     label_color := if active then "#ffcc66" else "#ccc";
     item_label := name l |}.

Inductive Control :=
(** the button at the top left *)
| ToggleButton (label : string)
(** the narrative panel: its heading button, if any, and its steps *)
| ScrollPanel (toggle : option string) (steps : list StepView)
(** the bar at the bottom *)
| ChapterPicker (items : list PickerItem).

(** [{freeMode ? "Story mode" : "Explore freely"}] *)
Definition toggle_label (s : Session) : string :=
  if freeMode s then "Story mode" else "Explore freely".

(** The controls, in source order. *)
Definition render_controls (s : Session) : list Control :=
  (if freeMode s && negb (isMobile s) then [ToggleButton (toggle_label s)] else [])
  ++ (if negb (freeMode s) && negb (isMobile s) then
        [ScrollPanel (if negb (isMobile s) then Some (toggle_label s) else None)
                     (map (render_step s) LAYERS)]
      else [])
  ++ (if freeMode s then [ChapterPicker (map (render_item s) LAYERS)] else []).

(** ** Vocabulary of the statements *)

(** The six registrations of auto-rotation effect run [i], in the order
    of the [map.on] calls. *)
Definition rotation_listeners (i : nat) : list Listener := [
  {| on_event := mousedown; handler := closure i cb_pause |};
  {| on_event := mouseup; handler := closure i cb_resume |};
  {| on_event := dragend; handler := closure i cb_resume |};
  {| on_event := pitchend; handler := closure i cb_resume |};
  {| on_event := rotateend; handler := closure i cb_resume |};
  {| on_event := moveend; handler := closure i cb_spinGlobe |}
].

Definition is_easeTo (c : Command) : bool :=
  match c with EaseTo _ => true | _ => false end.

Definition is_flyTo (c : Command) : bool :=
  match c with FlyTo _ => true | _ => false end.

(** The rotation steps among a list of commands. *)
Definition rotation_steps (l : list Command) : list Command := filter is_easeTo l.

(** What holds of the component between two events: the active chapter
    is a catalog entry; when a cleanup of the auto-rotation effect is
    pending, the intro chapter is active and the registry holds the six
    registrations of that run and nothing else; when none is pending the
    registry is empty and no rotation step is under way. *)
Definition consistent (w : World) : Prop :=
  In (activeLayer (session w)) LAYERS
  /\ match rotation_cleanup w with
     | Some i =>
         listeners (engine w) = rotation_listeners i
         /\ id (activeLayer (session w)) = "intro-globe"
     | None =>
         listeners (engine w) = []
         /\ forall o, animation (engine w) <> Some (EaseTo o)
     end.

(** Engine activity that is neither a pointer release nor the end of a
    drag, rotate or pitch gesture. *)
Definition no_release (ev : Event) : bool :=
  match ev with
  | MapEvent mousedown | MapEvent moveend | CameraMoved _ _ => true
  | _ => false
  end.

(** The labels of the toggle buttons inside a control. *)
Definition toggles_of (c : Control) : list string :=
  match c with
  | ToggleButton l => [l]
  | ScrollPanel (Some l) _ => [l]
  | _ => []
  end.

(** The steps and picker entries on screen. *)
Definition steps_of (c : Control) : list StepView :=
  match c with ScrollPanel _ steps => steps | _ => [] end.

Definition items_of (c : Control) : list PickerItem :=
  match c with ChapterPicker items => items | _ => [] end.

Definition is_panel (c : Control) : bool :=
  match c with ScrollPanel _ _ => true | _ => false end.

Definition is_picker (c : Control) : bool :=
  match c with ChapterPicker _ => true | _ => false end.

(** A step that is faded in, an entry that is highlighted. *)
Definition faded_in (v : StepView) : bool := Qeq_bool (step_opacity v) 1.
Definition highlighted (it : PickerItem) : bool := String.eqb (label_color it) "#ffcc66".

(** Upper-casing a string with [canonicalize]. *)
Fixpoint fold_case (s : string) : string :=
  match s with
  | EmptyString => EmptyString
  | String c s' => String (canonicalize c) (fold_case s')
  end.

(** The options of a rotation step from centre [c] by [d] degrees west. *)
Definition westward (c : LngLat) (d : Q) : EaseToOptions :=
  {| ease_center := {| lng := js_sub (lng c) d; lat := lat c |};
     duration := 1000;
     ease_easing := fun n => n;
     essential := true |}.

(** The value of [distancePerSecond] that [spinGlobe] subtracts at zoom
    [z]. *)
Definition spin_increment (z : Q) : Q :=
  if Qgt_bool z slowSpinZoom then
    js_mul (js_div 360 secondsPerRevolution)
      (Qmax 0 (js_div (js_sub maxSpinZoom z) (js_sub maxSpinZoom slowSpinZoom)))
  else js_div 360 secondsPerRevolution.

(** The commands the component can send: [stop], a rotation step (one
    second long, at constant speed, marked essential), a fly-to to the
    view of a catalog chapter. *)
Definition expected_command (c : Command) : Prop :=
  match c with
  | Stop => True
  | EaseTo o =>
      duration o = 1000 /\ essential o = true /\ forall n, ease_easing o n = n
  | FlyTo o => exists l, In l LAYERS /\ o = flyTo_options l
  end.

(** The fly-to requests among a list of commands. *)
Definition fly_requests (l : list Command) : list Command := filter is_flyTo l.

(** The log grows by expected commands that are not fly-to requests. *)
Definition grows_without_flyTo (w w' : World) : Prop :=
  exists cmds, issued (engine w') = issued (engine w) ++ cmds
               /\ Forall expected_command cmds
               /\ fly_requests cmds = [].

(** Events other than a click on the chapter picker. *)
Definition not_a_pick (ev : Event) : bool :=
  match ev with PickerClick _ => false | _ => true end.

(** The engine brings the rotation step under way to its end: the camera
    reaches the target and [moveend] fires. *)
Definition complete_rotation_step (w : World) : World :=
  match animation (engine w) with
  | Some (EaseTo o) =>
      step (step w (CameraMoved (getZoom (engine w)) (ease_center o)))
           (MapEvent moveend)
  | _ => w
  end.

Fixpoint repeat_step (n : nat) (f : World -> World) (w : World) : World :=
  match n with
  | O => w
  | S n' => repeat_step n' f (f w)
  end.

(** What holds of the session in every state reached from a mount with
    detection outcome [mobile]. *)
Definition session_invariant (mobile : bool) (s : Session) : Prop :=
  isMobile s = mobile
  /\ (mobile = true -> freeMode s = true)
  /\ In (activeLayer s) LAYERS
  /\ (visibleId s = None \/ exists l, In l LAYERS /\ visibleId s = Some (id l)).

(** * Properties *)

(** ** Binary64 rounding *)

(** Powers of two. *)
Lemma pow2_pos (k : Z) : 0 < pow2 k.
Proof. apply Qpower_0_lt. reflexivity. Qed.

Lemma pow2_add (a b : Z) : pow2 (a + b) == pow2 a * pow2 b.
Proof. apply Qpower_plus. discriminate. Qed.

Lemma pow2_le (a b : Z) : (a <= b)%Z -> pow2 a <= pow2 b.
Proof. intros H. apply Qpower_le_compat_l; [exact H|discriminate]. Qed.

Lemma pow2_lt (a b : Z) : (a < b)%Z -> pow2 a < pow2 b.
Proof. intros H. apply Qpower_lt_compat_l; [exact H|reflexivity]. Qed.

Lemma pow2_lt_inv (a b : Z) : pow2 a < pow2 b -> (a < b)%Z.
Proof. intros H. apply (Qpower_lt_compat_l_inv 2); [exact H|reflexivity]. Qed.

Lemma pow2_Z (k : Z) : (0 <= k)%Z -> pow2 k == inject_Z (2 ^ k).
Proof. intros H. unfold pow2. now rewrite Zpower_Qpower. Qed.

(** A multiple of a grid step is a multiple of every finer one. *)
Lemma pow2_split (j k : Z) : (j <= k)%Z -> pow2 k == inject_Z (2 ^ (k - j)) * pow2 j.
Proof.
  intros H. rewrite <- pow2_Z by lia. rewrite <- pow2_add.
  replace (k - j + j)%Z with k by lia. reflexivity.
Qed.

Lemma div_pow2 (x : Q) (j : Z) : x / pow2 j * pow2 j == x.
Proof. field. intros E. pose proof (pow2_pos j). lra. Qed.

(** The binary exponent. *)
Lemma mag_spec (x : Q) : 0 < x -> pow2 (mag x) <= x /\ x < pow2 (mag x + 1).
Proof.
  intros Hx. unfold mag.
  destruct x as [p q]. simpl Qnum. simpl Qden.
  assert (Hp : (0 < p)%Z) by (unfold Qlt in Hx; simpl in Hx; lia).
  set (a := Z.log2 p). set (b := Z.log2 (Zpos q)).
  assert (Ha : (2 ^ a <= p < 2 ^ (a + 1))%Z).
  { pose proof (Z.log2_spec p Hp). unfold a. now rewrite <- Z.add_1_r in H. }
  assert (Hb : (2 ^ b <= Zpos q < 2 ^ (b + 1))%Z).
  { pose proof (Z.log2_spec (Zpos q) eq_refl). unfold b. now rewrite <- Z.add_1_r in H. }
  assert (Ha0 : (0 <= a)%Z) by apply Z.log2_nonneg.
  assert (Hb0 : (0 <= b)%Z) by apply Z.log2_nonneg.
  assert (Ex : p # q == inject_Z p / inject_Z (Zpos q)) by apply Qmake_Qdiv.
  assert (Hq : 0 < inject_Z (Zpos q)) by reflexivity.
  (* p / q < 2^(a+1) / 2^b and 2^a / 2^(b+1) <= p / q *)
  assert (U : p # q < pow2 (a - b + 1)).
  { replace (a - b + 1)%Z with ((a + 1) + - b)%Z by lia.
    rewrite pow2_add. unfold pow2 at 2. rewrite Qpower_opp.
    fold (pow2 b). rewrite (pow2_Z (a + 1)) by lia. rewrite (pow2_Z b) by lia.
    rewrite Ex. apply Qlt_shift_div_r; [exact Hq|].
    assert (H2b : 0 < inject_Z (2 ^ b)) by (rewrite <- pow2_Z by lia; apply pow2_pos).
    setoid_replace (inject_Z (2 ^ (a + 1)) * / inject_Z (2 ^ b) * inject_Z (Z.pos q))
      with (inject_Z (2 ^ (a + 1)) * inject_Z (Z.pos q) / inject_Z (2 ^ b))
      by (field; lra).
    apply Qlt_shift_div_l; [exact H2b|].
    rewrite <- !inject_Z_mult. rewrite <- Zlt_Qlt. nia. }
  assert (L : pow2 (a - b - 1) <= p # q).
  { replace (a - b - 1)%Z with (a + - (b + 1))%Z by lia.
    rewrite pow2_add. unfold pow2 at 2. rewrite Qpower_opp.
    fold (pow2 (b + 1)). rewrite (pow2_Z a) by lia. rewrite (pow2_Z (b + 1)) by lia.
    rewrite Ex. apply Qle_shift_div_l; [exact Hq|].
    assert (H2b : 0 < inject_Z (2 ^ (b + 1))) by (rewrite <- pow2_Z by lia; apply pow2_pos).
    setoid_replace (inject_Z (2 ^ a) * / inject_Z (2 ^ (b + 1)) * inject_Z (Z.pos q))
      with (inject_Z (2 ^ a) * inject_Z (Z.pos q) / inject_Z (2 ^ (b + 1)))
      by (field; lra).
    apply Qle_shift_div_r; [exact H2b|].
    rewrite <- !inject_Z_mult. rewrite <- Zle_Qle. nia. }
  destruct (Qle_bool (pow2 (a - b)) (p # q)) eqn:T.
  - apply Qle_bool_iff in T. split; [exact T|exact U].
  - split.
    + exact L.
    + replace (a - b - 1 + 1)%Z with (a - b)%Z by lia.
      apply Qnot_le_lt. intros C. apply Qle_bool_iff in C. congruence.
Qed.

Lemma mag_unique (x : Q) (e : Z) : pow2 e <= x -> x < pow2 (e + 1) -> mag x = e.
Proof.
  intros L U.
  assert (Hx : 0 < x) by (pose proof (pow2_pos e); lra).
  destruct (mag_spec x Hx) as [L' U'].
  assert (A : (e < mag x + 1)%Z) by (apply pow2_lt_inv; lra).
  assert (B : (mag x < e + 1)%Z) by (apply pow2_lt_inv; lra).
  lia.
Qed.

Lemma mag_le (x y : Q) : 0 < x -> x <= y -> (mag x <= mag y)%Z.
Proof.
  intros Hx Hxy.
  destruct (mag_spec x Hx) as [L _].
  destruct (mag_spec y) as [_ U]; [lra|].
  assert (A : (mag x < mag y + 1)%Z) by (apply pow2_lt_inv; lra).
  lia.
Qed.


Lemma mag_eq (x y : Q) : 0 < x -> x == y -> mag x = mag y.
Proof.
  intros Hx E. destruct (mag_spec x Hx) as [L U].
  symmetry. apply mag_unique; rewrite <- E; assumption.
Qed.

(** Rounding to the nearest integer, ties to even. *)
Lemma rne_bounds (t : Q) : (Qfloor t <= rne t <= Qfloor t + 1)%Z.
Proof.
  unfold rne. destruct (Qcompare _ _); [destruct (Z.even _)| |]; lia.
Qed.

Lemma rne_Z (n : Z) : rne (inject_Z n) = n.
Proof.
  unfold rne. rewrite Qfloor_Z.
  assert (E : inject_Z n - inject_Z n == 0) by ring.
  assert (C : Qcompare (inject_Z n - inject_Z n) (1 # 2) = Lt).
  { rewrite <- Qlt_alt. rewrite E. reflexivity. }
  now rewrite C.
Qed.

#[global] Instance rne_proper : Proper (Qeq ==> eq) rne.
Proof.
  intros x y E. unfold rne. rewrite (Qfloor_comp x y E).
  assert (C : Qcompare (x - inject_Z (Qfloor y)) (1 # 2)
              = Qcompare (y - inject_Z (Qfloor y)) (1 # 2)) by now rewrite E.
  now rewrite C.
Qed.

Lemma rne_le (t : Q) (n : Z) : t <= inject_Z n -> (rne t <= n)%Z.
Proof.
  intros H. pose proof (Qfloor_le t) as Hf. pose proof (rne_bounds t) as Hb.
  assert (Hfn : (Qfloor t <= n)%Z).
  { rewrite <- (Qfloor_Z n). now apply Qfloor_resp_le. }
  destruct (Z.eq_dec (Qfloor t) n) as [E|N]; [|lia].
  assert (Et : t == inject_Z n) by (rewrite E in Hf; lra).
  rewrite Et. rewrite rne_Z. lia.
Qed.

Lemma rne_ge (t : Q) (n : Z) : inject_Z n <= t -> (n <= rne t)%Z.
Proof.
  intros H. pose proof (rne_bounds t) as Hb.
  assert (Hfn : (n <= Qfloor t)%Z).
  { rewrite <- (Qfloor_Z n). now apply Qfloor_resp_le. }
  lia.
Qed.

(** Rounding of a positive number. *)
Lemma ulp_exp_le (e e' : Z) : (e <= e')%Z -> (ulp_exp e <= ulp_exp e')%Z.
Proof. unfold ulp_exp. lia. Qed.

Lemma round_pos_eq (x y : Q) : 0 < x -> x == y -> round_pos x == round_pos y.
Proof.
  intros Hx E. unfold round_pos. rewrite (mag_eq x y Hx E).
  now rewrite E.
Qed.

Lemma round_pos_nonneg (x : Q) : 0 < x -> 0 <= round_pos x.
Proof.
  intros Hx. unfold round_pos. set (j := ulp_exp (mag x)).
  pose proof (pow2_pos j) as Hj.
  assert (H : (0 <= rne (x / pow2 j))%Z).
  { apply rne_ge. apply Qle_shift_div_l; [exact Hj|].
    change (inject_Z 0) with 0. lra. }
  apply Qmult_le_0_compat; [|lra]. now rewrite (Zle_Qle 0) in H.
Qed.

(** A number on the grid of its own binade is its own rounding. *)
Lemma round_pos_exact (n k : Z) :
  (0 < n < 2 ^ 53)%Z -> (-1074 <= k)%Z ->
  round_pos (inject_Z n * pow2 k) == inject_Z n * pow2 k.
Proof.
  intros Hn Hk. set (x := inject_Z n * pow2 k).
  pose proof (pow2_pos k) as Hpk.
  assert (Hn1 : 1 <= inject_Z n) by (change 1 with (inject_Z 1); rewrite <- Zle_Qle; lia).
  assert (Hn2 : inject_Z n < inject_Z (2 ^ 53)) by (rewrite <- Zlt_Qlt; lia).
  assert (Hx : 0 < x) by (unfold x; apply Qmult_lt_0_compat; lra).
  destruct (mag_spec x Hx) as [L U].
  assert (Hux : x < pow2 (53 + k)).
  { rewrite pow2_add, (pow2_Z 53) by lia. unfold x.
    apply Qmult_lt_compat_r; assumption. }
  assert (He : (mag x < 53 + k)%Z) by (apply pow2_lt_inv; lra).
  unfold round_pos. fold x. set (j := ulp_exp (mag x)).
  assert (Hj : (j <= k)%Z) by (unfold j, ulp_exp; lia).
  assert (E : x / pow2 j == inject_Z (n * 2 ^ (k - j))).
  { unfold x. rewrite (pow2_split j k Hj), inject_Z_mult.
    field. pose proof (pow2_pos j). lra. }
  rewrite E, rne_Z, inject_Z_mult. unfold x.
  rewrite (pow2_split j k Hj). ring.
Qed.

(** The grid a positive number that is its own rounding lies on. *)
Lemma round_pos_grid (x : Q) (e : Z) :
  0 < x -> round_pos x == x -> pow2 e <= x ->
  exists N : Z, x == inject_Z N * pow2 (ulp_exp e).
Proof.
  intros Hx F He.
  destruct (mag_spec x Hx) as [L U].
  assert (Hm : (e <= mag x)%Z).
  { assert (A : (e < mag x + 1)%Z) by (apply pow2_lt_inv; lra). lia. }
  pose proof (ulp_exp_le _ _ Hm) as Hj.
  unfold round_pos in F.
  exists (rne (x / pow2 (ulp_exp (mag x))) * 2 ^ (ulp_exp (mag x) - ulp_exp e))%Z.
  rewrite inject_Z_mult, <- Qmult_assoc, <- (pow2_split _ _ Hj).
  now symmetry.
Qed.

(** Rounding of a positive number does not cross a binary64 value. *)
Lemma round_pos_le (y b : Q) :
  0 < y -> y <= b -> round_pos b == b -> round_pos y <= b.
Proof.
  intros Hy Hyb Fb.
  assert (Hb : 0 < b) by lra.
  destruct (mag_spec y Hy) as [Ly Uy].
  destruct (round_pos_grid b (mag y) Hb Fb) as [N EN]; [lra|].
  unfold round_pos. set (j := ulp_exp (mag y)) in *.
  pose proof (pow2_pos j) as Hj.
  assert (H : (rne (y / pow2 j) <= N)%Z).
  { apply rne_le. apply Qle_shift_div_r; [exact Hj|]. lra. }
  rewrite EN. apply Qmult_le_compat_r; [|lra]. now rewrite <- Zle_Qle.
Qed.

Lemma round_pos_ge (a y : Q) :
  0 < a -> a <= y -> round_pos a == a -> a <= round_pos y.
Proof.
  intros Ha Hay Fa.
  assert (Hy : 0 < y) by lra.
  destruct (mag_spec y Hy) as [Ly Uy].
  destruct (mag_spec a Ha) as [La Ua].
  pose proof (mag_le a y Ha Hay) as Hm.
  unfold round_pos. set (j := ulp_exp (mag y)).
  pose proof (pow2_pos j) as Hj.
  destruct (Z.eq_dec (mag a) (mag y)) as [E|NE].
  - (* same binade: a is on the grid of y *)
    destruct (round_pos_grid a (mag y) Ha Fa) as [N EN]; [rewrite <- E; lra|].
    fold j in EN.
    assert (H : (N <= rne (y / pow2 j))%Z).
    { apply rne_ge. apply Qle_shift_div_l; [exact Hj|]. lra. }
    rewrite EN. apply Qmult_le_compat_r; [|lra]. now rewrite <- Zle_Qle.
  - (* a lower binade: the rounding stays at or above the power of two *)
    assert (Hlt : (mag a + 1 <= mag y)%Z) by lia.
    assert (Ha2 : a < pow2 (mag y)) by (pose proof (pow2_le _ _ Hlt); lra).
    destruct (Z_le_gt_dec (-1074) (mag y)) as [Hbig|Hsmall].
    + assert (Hjm : (j <= mag y)%Z) by (unfold j, ulp_exp; lia).
      assert (H : (2 ^ (mag y - j) <= rne (y / pow2 j))%Z).
      { apply rne_ge. apply Qle_shift_div_l; [exact Hj|].
        rewrite <- (pow2_split j (mag y) Hjm). exact Ly. }
      apply Qle_trans with (pow2 (mag y)); [lra|].
      rewrite (pow2_split j (mag y) Hjm).
      apply Qmult_le_compat_r; [|lra]. now rewrite <- Zle_Qle.
    + (* below the smallest subnormal nothing positive is representable *)
      exfalso.
      destruct (round_pos_grid a (mag a) Ha Fa La) as [N EN].
      assert (Hja : (ulp_exp (mag a) = -1074)%Z) by (unfold ulp_exp; lia).
      rewrite Hja in EN.
      pose proof (pow2_pos (-1074)) as Hp.
      assert (HN : (1 <= N)%Z).
      { destruct (Z_le_gt_dec N 0) as [C|C]; [|lia].
        exfalso. assert (inject_Z N <= 0) by (change 0 with (inject_Z 0); now rewrite <- Zle_Qle).
        assert (inject_Z N * pow2 (-1074) <= 0).
        { rewrite <- (Qmult_0_l (pow2 (-1074))). apply Qmult_le_compat_r; lra. }
        lra. }
      assert (HN' : 1 <= inject_Z N) by (change 1 with (inject_Z 1); now rewrite <- Zle_Qle).
      assert (pow2 (-1074) <= a).
      { rewrite EN. rewrite <- (Qmult_1_l (pow2 (-1074))) at 1.
        apply Qmult_le_compat_r; lra. }
      assert (pow2 (mag y) < pow2 (-1074)) by (apply pow2_lt; lia).
      lra.
Qed.

(** Rounding of any number. *)
Lemma fl_pos (x : Q) : 0 < x -> fl x = round_pos x.
Proof.
  intros H. unfold fl.
  assert (C : Qcompare x 0 = Gt) by (now apply Qgt_alt). now rewrite C.
Qed.

Lemma fl_neg (x : Q) : x < 0 -> fl x = - round_pos (- x).
Proof.
  intros H. unfold fl.
  assert (C : Qcompare x 0 = Lt) by (now apply Qlt_alt). now rewrite C.
Qed.

Lemma fl_zero (x : Q) : x == 0 -> fl x = 0.
Proof.
  intros H. unfold fl.
  assert (C : Qcompare x 0 = Eq) by (now apply Qeq_alt). now rewrite C.
Qed.

#[global] Instance fl_proper : Proper (Qeq ==> Qeq) fl.
Proof.
  intros x y E. destruct (Q_dec x 0) as [[H|H]|H].
  - rewrite (fl_neg x H), (fl_neg y) by (rewrite <- E; exact H).
    apply Qopp_comp. apply round_pos_eq; [lra|now rewrite E].
  - rewrite (fl_pos x H), (fl_pos y) by (rewrite <- E; exact H).
    now apply round_pos_eq.
  - rewrite (fl_zero x H), (fl_zero y) by (rewrite <- E; exact H). reflexivity.
Qed.

#[global] Instance binary64_proper : Proper (Qeq ==> iff) binary64.
Proof. intros x y E. unfold binary64. now rewrite E. Qed.

Lemma fl_opp (x : Q) : fl (- x) == - fl x.
Proof.
  destruct (Q_dec x 0) as [[H|H]|H].
  - rewrite (fl_neg x H), (fl_pos (- x)) by lra. ring.
  - rewrite (fl_pos x H), (fl_neg (- x)) by lra.
    apply Qopp_comp. apply round_pos_eq; [lra|ring].
  - rewrite (fl_zero x H), (fl_zero (- x)) by lra. reflexivity.
Qed.

Lemma binary64_opp (x : Q) : binary64 x -> binary64 (- x).
Proof. unfold binary64. intros H. now rewrite fl_opp, H. Qed.

Lemma binary64_0 : binary64 0.
Proof. reflexivity. Qed.

(** Integers below 2^53 scaled by a power of two are binary64 values. *)
Lemma binary64_scaled (n k : Z) :
  (Z.abs n < 2 ^ 53)%Z -> (-1074 <= k)%Z -> binary64 (inject_Z n * pow2 k).
Proof.
  intros Hn Hk. pose proof (pow2_pos k) as Hp. unfold binary64.
  destruct (Z.lt_trichotomy n 0) as [N|[N|N]].
  - assert (Hx : inject_Z n * pow2 k < 0).
    { assert (inject_Z n < 0) by (change 0 with (inject_Z 0); rewrite <- Zlt_Qlt; lia).
      setoid_replace (inject_Z n * pow2 k) with (- ((- inject_Z n) * pow2 k)) by ring.
      assert (0 < (- inject_Z n) * pow2 k) by (apply Qmult_lt_0_compat; lra). lra. }
    rewrite (fl_neg _ Hx).
    assert (E : - (inject_Z n * pow2 k) == inject_Z (- n) * pow2 k)
      by (rewrite inject_Z_opp; ring).
    assert (Hx' : 0 < - (inject_Z n * pow2 k)) by lra.
    rewrite (round_pos_eq _ _ Hx' E), round_pos_exact by lia.
    rewrite inject_Z_opp. ring.
  - subst n. rewrite fl_zero; ring.
  - assert (Hx : 0 < inject_Z n * pow2 k).
    { assert (0 < inject_Z n) by (change 0 with (inject_Z 0); rewrite <- Zlt_Qlt; lia).
      apply Qmult_lt_0_compat; lra. }
    rewrite (fl_pos _ Hx). apply round_pos_exact; lia.
Qed.

Lemma binary64_Z (n : Z) : (Z.abs n < 2 ^ 53)%Z -> binary64 (inject_Z n).
Proof.
  intros H. assert (E : inject_Z n == inject_Z n * pow2 0) by (unfold pow2; simpl; ring).
  rewrite E. apply binary64_scaled; lia.
Qed.

(** The grid a positive binary64 value lies on. *)
Lemma binary64_grid (x : Q) (e : Z) :
  binary64 x -> pow2 e <= x -> exists N : Z, x == inject_Z N * pow2 (ulp_exp e).
Proof.
  intros F He. assert (Hx : 0 < x) by (pose proof (pow2_pos e); lra).
  unfold binary64 in F. rewrite (fl_pos x Hx) in F.
  now apply round_pos_grid.
Qed.

(** Rounding never crosses a binary64 value. *)
Lemma fl_le (y b : Q) : binary64 b -> y <= b -> fl y <= b.
Proof.
  intros Fb Hyb. unfold binary64 in Fb.
  destruct (Q_dec y 0) as [[Hy|Hy]|Hy].
  - rewrite (fl_neg y Hy).
    destruct (Q_dec b 0) as [[Hb|Hb]|Hb].
    + rewrite (fl_neg b Hb) in Fb.
      assert (Fb' : round_pos (- b) == - b) by lra.
      assert (H1 : 0 < - b) by lra. assert (H2 : - b <= - y) by lra.
      pose proof (round_pos_ge (- b) (- y) H1 H2 Fb'). lra.
    + assert (H1 : 0 < - y) by lra. pose proof (round_pos_nonneg (- y) H1). lra.
    + assert (H1 : 0 < - y) by lra. pose proof (round_pos_nonneg (- y) H1). lra.
  - rewrite (fl_pos y Hy). rewrite (fl_pos b) in Fb by lra.
    now apply round_pos_le.
  - rewrite (fl_zero y Hy). lra.
Qed.

Lemma fl_ge (a y : Q) : binary64 a -> a <= y -> a <= fl y.
Proof.
  intros Fa Hay.
  assert (H0 : - y <= - a) by lra.
  pose proof (fl_le (- y) (- a) (binary64_opp a Fa) H0) as H.
  rewrite fl_opp in H. lra.
Qed.

(** A rounding is a binary64 value, and rounding is monotone. *)
Lemma round_pos_binary64 (x : Q) : 0 < x -> binary64 (round_pos x).
Proof.
  intros Hx. destruct (mag_spec x Hx) as [L U].
  unfold round_pos. set (j := ulp_exp (mag x)).
  pose proof (pow2_pos j) as Hj.
  assert (Hj1 : (-1074 <= j)%Z) by (unfold j, ulp_exp; lia).
  assert (Hj2 : (mag x + 1 <= 53 + j)%Z) by (unfold j, ulp_exp; lia).
  assert (Hup : x / pow2 j <= inject_Z (2 ^ 53)).
  { apply Qle_shift_div_r; [exact Hj|].
    rewrite <- pow2_Z, <- pow2_add by lia.
    pose proof (pow2_le _ _ Hj2). lra. }
  assert (Hlo : inject_Z 0 <= x / pow2 j).
  { apply Qle_shift_div_l; [exact Hj|]. change (inject_Z 0) with 0. lra. }
  pose proof (rne_le _ _ Hup) as H1. pose proof (rne_ge _ _ Hlo) as H0.
  set (N := rne (x / pow2 j)) in *.
  destruct (Z.eq_dec N (2 ^ 53)) as [E|NE].
  - rewrite E.
    assert (E2 : inject_Z (2 ^ 53) * pow2 j == inject_Z 1 * pow2 (53 + j)).
    { rewrite pow2_add, (pow2_Z 53) by lia. change (inject_Z 1) with 1. ring. }
    rewrite E2. apply binary64_scaled; [reflexivity|lia].
  - apply binary64_scaled; lia.
Qed.

Lemma fl_binary64 (x : Q) : binary64 (fl x).
Proof.
  destruct (Q_dec x 0) as [[H|H]|H].
  - rewrite (fl_neg x H). apply binary64_opp, round_pos_binary64. lra.
  - rewrite (fl_pos x H). now apply round_pos_binary64.
  - rewrite (fl_zero x H). apply binary64_0.
Qed.


Lemma rne_monotone (t u : Q) : t <= u -> (rne t <= rne u)%Z.
Proof.
  intros H. pose proof (Qfloor_resp_le t u H) as Hf.
  pose proof (rne_bounds t) as Bt. pose proof (rne_bounds u) as Bu.
  destruct (Z.eq_dec (Qfloor t) (Qfloor u)) as [E|NE]; [|lia].
  unfold rne in *. rewrite <- E in *.
  destruct (Qcompare (t - inject_Z (Qfloor t)) (1 # 2)) eqn:Ct;
    destruct (Qcompare (u - inject_Z (Qfloor t)) (1 # 2)) eqn:Cu;
    try (destruct (Z.even (Qfloor t))); try lia;
    repeat match goal with
           | C : Qcompare _ _ = Eq |- _ => apply Qeq_alt in C
           | C : Qcompare _ _ = Lt |- _ => apply Qlt_alt in C
           | C : Qcompare _ _ = Gt |- _ => apply Qgt_alt in C
           end;
    exfalso; lra.
Qed.

Lemma round_pos_monotone (x y : Q) : 0 < x -> x <= y -> round_pos x <= round_pos y.
Proof.
  intros Hx Hxy. assert (Hy : 0 < y) by lra.
  pose proof (mag_le x y Hx Hxy) as Hm.
  destruct (Z.eq_dec (ulp_exp (mag x)) (ulp_exp (mag y))) as [E|NE].
  - unfold round_pos. rewrite E. set (j := ulp_exp (mag y)).
    pose proof (pow2_pos j) as Hj.
    apply Qmult_le_compat_r; [|lra]. rewrite <- Zle_Qle. apply rne_monotone.
    apply Qmult_le_compat_r; [exact Hxy|]. apply Qlt_le_weak, Qinv_lt_0_compat, Hj.
  - assert (Hlt : (mag x < mag y)%Z).
    { destruct (Z.eq_dec (mag x) (mag y)) as [E|N]; [now rewrite E in NE|lia]. }
    assert (Hbig : (-1074 < mag y - 52)%Z) by (unfold ulp_exp in NE; lia).
    destruct (mag_spec x Hx) as [_ Ux]. destruct (mag_spec y Hy) as [Ly _].
    assert (Hle : pow2 (mag x + 1) <= pow2 (mag y)) by (apply pow2_le; lia).
    assert (Fp : round_pos (pow2 (mag y)) == pow2 (mag y)).
    { assert (E : pow2 (mag y) == inject_Z 1 * pow2 (mag y))
        by (change (inject_Z 1) with 1; ring).
      rewrite (round_pos_eq _ _ (pow2_pos _) E), round_pos_exact by lia.
      now symmetry. }
    apply Qle_trans with (pow2 (mag y)).
    + apply round_pos_le; [exact Hx|lra|exact Fp].
    + apply round_pos_ge; [apply pow2_pos|exact Ly|exact Fp].
Qed.

Lemma fl_monotone (x y : Q) : x <= y -> fl x <= fl y.
Proof.
  intros H. destruct (Q_dec x 0) as [[Hx|Hx]|Hx].
  - rewrite (fl_neg x Hx). assert (Hx' : 0 < - x) by lra.
    pose proof (round_pos_nonneg (- x) Hx') as Nx.
    destruct (Q_dec y 0) as [[Hy|Hy]|Hy].
    + rewrite (fl_neg y Hy). assert (Hy' : 0 < - y) by lra.
      assert (Hyx : - y <= - x) by lra.
      pose proof (round_pos_monotone (- y) (- x) Hy' Hyx). lra.
    + rewrite (fl_pos y Hy). pose proof (round_pos_nonneg y Hy). lra.
    + rewrite (fl_zero y Hy). lra.
  - assert (Hy : 0 < y) by lra. rewrite (fl_pos x Hx), (fl_pos y Hy).
    now apply round_pos_monotone.
  - rewrite (fl_zero x Hx).
    destruct (Q_dec y 0) as [[Hy|Hy]|Hy]; [lra| |rewrite (fl_zero y Hy); lra].
    rewrite (fl_pos y Hy). now apply round_pos_nonneg.
Qed.


(** [fl] on a few numbers, against the binary64 values: 0.1, the sum
    0.1 + 0.2 = 0.30000000000000004, the ties at 2^53 + 1 and 2^53 + 3
    (to the even neighbour), and the smallest subnormals. *)
Example fl_on_examples :
  fl (1 # 10) == 3602879701896397 # 36028797018963968
  /\ fl (fl (1 # 10) + fl (2 # 10)) == 1351079888211149 # 4503599627370496
  /\ fl (inject_Z (2 ^ 53 + 1)) == inject_Z (2 ^ 53)
  /\ fl (inject_Z (2 ^ 53 + 3)) == inject_Z (2 ^ 53 + 4)
  /\ fl (pow2 (-1075)) == 0
  /\ fl (3 * pow2 (-1075)) == pow2 (-1073)
  /\ fl (- (31 # 10)) == - (6980579422424269 # 2251799813685248).
Proof. repeat split; vm_compute; reflexivity. Qed.

(** ** The catalog *)

Lemma LAYERS_ids :
  map id LAYERS =
  ["intro-globe"; "total-methane"; "no2-monthly"; "days-above-90f";
   "geoglam"; "grdi-v1"; "poi-showcase"; "finale"].
Proof. reflexivity. Qed.

Lemma LAYERS_NoDup : NoDup (map id LAYERS).
Proof.
  rewrite LAYERS_ids.
  repeat (constructor; [simpl; intuition discriminate|]).
  constructor.
Qed.

Lemma find_layer_Some (c : string) (l : LayerDef) :
  find_layer c = Some l -> In l LAYERS /\ id l = c.
Proof.
  unfold find_layer. intros H. apply find_some in H.
  destruct H as [Hin Heq]. apply String.eqb_eq in Heq. auto.
Qed.

Lemma find_layer_None (c : string) :
  ~ In c (map id LAYERS) -> find_layer c = None.
Proof.
  unfold find_layer. intros Hn.
  destruct (find _ LAYERS) as [l|] eqn:E; [|reflexivity].
  apply find_some in E. destruct E as [Hin Heq].
  apply String.eqb_eq in Heq. subst c.
  exfalso. apply Hn. now apply in_map.
Qed.

(** Within the catalog a chapter is determined by its id. *)
Lemma catalog_id_inj (a b : LayerDef) :
  In a LAYERS -> In b LAYERS -> id a = id b -> a = b.
Proof.
  unfold LAYERS. simpl. intros Ha Hb.
  repeat (destruct Ha as [<-|Ha]; [|]); try contradiction;
    repeat (destruct Hb as [<-|Hb]; [|]); try contradiction;
    simpl; intros E; first [reflexivity | discriminate E].
Qed.

Lemma same_object_spec (a b : LayerDef) :
  In a LAYERS -> In b LAYERS -> (same_object a b = true <-> a = b).
Proof.
  intros Ha Hb. unfold same_object. rewrite String.eqb_eq. split.
  - now apply catalog_id_inj.
  - now intros ->.
Qed.

(** The picker finds the handler of the entry that [find_layer] finds. *)
Lemma selectChapter_find (c : string) (s : Session) :
  selectChapter c s =
  match find_layer c with Some l => setActiveLayer l s | None => s end.
Proof.
  unfold selectChapter, chapterPicker, find_layer.
  induction LAYERS as [|l tl IH]; simpl; [reflexivity|].
  destruct (String.eqb (id l) c); [reflexivity|exact IH].
Qed.

(** ** React bookkeeping *)

(** A re-render whose dependencies did not change runs no effect. *)
Lemma commit_same_deps (prev : Session) (w : World) :
  mapLoaded prev = mapLoaded (session w) ->
  id (activeLayer prev) = id (activeLayer (session w)) ->
  commit prev w = w.
Proof.
  intros Hm Hi. unfold commit, same_object.
  rewrite Hm, Hi, Bool.eqb_reflx, String.eqb_refl. reflexivity.
Qed.

(** A state update that leaves the session as it is leaves the world as
    it is. *)
Lemma update_noop (f : Session -> Session) (w : World) :
  f (session w) = session w -> update f w = w.
Proof.
  intros Hf. unfold update.
  assert (E : with_session f w = w).
  { destruct w; unfold with_session; simpl in *. now rewrite Hf. }
  rewrite E. now apply commit_same_deps.
Qed.

(** ** Chapter selection *)

(** C1. For a chapter id that is not in the catalog [LAYERS], a scroll
    step-entered notification ([handleStepEnter], the spec's advanceTo)
    and a free-mode selection ([selectChapter]) leave [activeLayer] and
    [visibleId] unchanged; the whole session, and with it the whole
    component (no effect runs, no command reaches the map), stays as it
    was. *)
Theorem unknown_chapter_is_noop (chapterId : string) (e : StepEnterEvent)
    (s : Session) (w : World) :
  ~ In chapterId (map id LAYERS) ->
  data_id (data e) = chapterId ->
  (activeLayer (handleStepEnter e s) = activeLayer s
   /\ visibleId (handleStepEnter e s) = visibleId s
   /\ handleStepEnter e s = s)
  /\ (activeLayer (selectChapter chapterId s) = activeLayer s
      /\ visibleId (selectChapter chapterId s) = visibleId s
      /\ selectChapter chapterId s = s)
  /\ step w (StepEnter e) = w
  /\ step w (PickerClick chapterId) = w.
Proof.
  intros Hn He. apply find_layer_None in Hn.
  assert (H1 : forall s0, handleStepEnter e s0 = s0).
  { intros s0. unfold handleStepEnter. rewrite He, Hn. now destruct (freeMode s0). }
  assert (H2 : forall s0, selectChapter chapterId s0 = s0).
  { intros s0. now rewrite selectChapter_find, Hn. }
  rewrite H1, H2. repeat split.
  - simpl. destruct (scroll_panel_rendered (session w)); [|reflexivity].
    apply update_noop, H1.
  - simpl. destruct (picker_rendered (session w)); [|reflexivity].
    apply update_noop, H2.
Qed.

Lemma unknown_chapter_is_noop_witness :
  let e := {| data := {| data_id := "atlantis" |}; direction := down;
              entry := {| isIntersecting := true; intersectionRatio := 1 |};
              index := 3%Z |} in
  handleStepEnter e initial_session = initial_session
  /\ selectChapter "atlantis" (toggleFreeMode initial_session)
     = toggleFreeMode initial_session.
Proof.
  intros e.
  assert (Hn : ~ In "atlantis" (map id LAYERS)).
  { rewrite LAYERS_ids. simpl. intuition discriminate. }
  split.
  - apply (unknown_chapter_is_noop "atlantis" e initial_session (mount false false) Hn eq_refl).
  - apply (unknown_chapter_is_noop "atlantis" e (toggleFreeMode initial_session)
             (mount false false) Hn eq_refl).
Defined.

(** C2. While [freeMode] is true, a scroll step-entered notification
    changes neither [activeLayer] nor [visibleId], whatever chapter id it
    carries (catalog ids included): the session is returned as it was and
    the component does nothing. *)
Theorem free_mode_ignores_scroll (e : StepEnterEvent) (w : World) :
  freeMode (session w) = true ->
  let s := session w in
  activeLayer (handleStepEnter e s) = activeLayer s
  /\ visibleId (handleStepEnter e s) = visibleId s
  /\ handleStepEnter e s = s
  /\ update (handleStepEnter e) w = w
  /\ step w (StepEnter e) = w.
Proof.
  intros Hf s.
  assert (H1 : handleStepEnter e s = s).
  { unfold handleStepEnter. subst s. now rewrite Hf. }
  rewrite H1. do 3 (split; [reflexivity|]). split.
  - apply update_noop, H1.
  - simpl. unfold scroll_panel_rendered. now rewrite Hf.
Qed.

Lemma free_mode_ignores_scroll_witness :
  let e := {| data := {| data_id := "grdi-v1" |}; direction := up;
              entry := {| isIntersecting := true; intersectionRatio := 1 |};
              index := 5%Z |} in
  let w := mount true true in
  freeMode (session w) = true
  /\ find_layer "grdi-v1" <> None
  /\ handleStepEnter e (session w) = session w
  /\ step w (StepEnter e) = w.
Proof.
  intros e w.
  pose proof (free_mode_ignores_scroll e w eq_refl) as H.
  split; [reflexivity|]. split; [discriminate|]. split; apply H.
Defined.

(** C9. [toggleFreeMode] negates [freeMode] and changes nothing else:
    [activeLayer] and [visibleId] (and the other cells) keep their values,
    and the re-render it causes runs no effect, so the map receives no
    command. *)
Theorem toggleFreeMode_frame (s : Session) (w : World) :
  freeMode (toggleFreeMode s) = negb (freeMode s)
  /\ activeLayer (toggleFreeMode s) = activeLayer s
  /\ visibleId (toggleFreeMode s) = visibleId s
  /\ isMobile (toggleFreeMode s) = isMobile s
  /\ mapLoaded (toggleFreeMode s) = mapLoaded s
  /\ update toggleFreeMode w = with_session toggleFreeMode w
  /\ engine (step w ToggleClick) = engine w
  /\ activeLayer (session (step w ToggleClick)) = activeLayer (session w)
  /\ visibleId (session (step w ToggleClick)) = visibleId (session w).
Proof.
  assert (U : update toggleFreeMode w = with_session toggleFreeMode w).
  { unfold update. now apply commit_same_deps. }
  repeat split; try exact U;
    simpl; destruct (toggle_rendered (session w)); try reflexivity;
    now rewrite U.
Qed.

(** C10. The outcome of a step-entered notification depends on the
    event only through the chapter id it carries: two events with the same
    payload, whatever their direction, index and observer entry, yield the
    same session and the same component state. *)
Theorem step_enter_depends_on_payload_only (e1 e2 : StepEnterEvent)
    (s : Session) (w : World) :
  data_id (data e1) = data_id (data e2) ->
  handleStepEnter e1 s = handleStepEnter e2 s
  /\ step w (StepEnter e1) = step w (StepEnter e2).
Proof.
  intros H.
  assert (E : forall s0, handleStepEnter e1 s0 = handleStepEnter e2 s0).
  { intros s0. unfold handleStepEnter. now rewrite H. }
  split; [apply E|].
  simpl. destruct (scroll_panel_rendered (session w)); [|reflexivity].
  unfold update. unfold with_session. now rewrite E.
Qed.

Lemma step_enter_depends_on_payload_only_witness :
  let en := {| isIntersecting := true; intersectionRatio := 0.6 |} in
  let e1 := {| data := {| data_id := "geoglam" |}; direction := up;
               entry := en; index := 4%Z |} in
  let e2 := {| data := {| data_id := "geoglam" |}; direction := down;
               entry := {| isIntersecting := false; intersectionRatio := 0 |};
               index := 0%Z |} in
  step (mount false true) (StepEnter e1) = step (mount false true) (StepEnter e2).
Proof.
  intros en e1 e2.
  apply (step_enter_depends_on_payload_only e1 e2 initial_session (mount false true) eq_refl).
Defined.

(** C5 fails as stated: from the first render, selecting "total-methane"
    in free mode leaves [visibleId] at [null], whereas the step-entered
    notification for the same id in story mode sets it to that id; the two
    resulting states differ in more than the [freeMode] flag. *)
Lemma selectChapter_keeps_visibleId_counterexample :
  let e := {| data := {| data_id := "total-methane" |}; direction := down;
              entry := {| isIntersecting := true; intersectionRatio := 1 |};
              index := 1%Z |} in
  let after_select :=
    selectChapter "total-methane" (setFreeMode (fun _ => true) initial_session) in
  let after_advance :=
    handleStepEnter e (setFreeMode (fun _ => false) initial_session) in
  ~ (activeLayer after_select = activeLayer after_advance
     /\ visibleId after_select = visibleId after_advance).
Proof.
  intros e a b [_ H]. vm_compute in H. discriminate H.
Qed.

(** C5, amended. [selectChapter] in free mode sets [activeLayer] to the
    same catalog entry that the step-entered notification for the same id
    sets in story mode (none when the id is unknown), it is not gated by
    [freeMode], and neither changes [freeMode]; but [selectChapter] leaves
    [visibleId] as it was, while the notification sets it to the id. *)
Theorem selectChapter_vs_advanceTo (e : StepEnterEvent) (s : Session) :
  let c := data_id (data e) in
  let free := setFreeMode (fun _ => true) s in
  let story := setFreeMode (fun _ => false) s in
  activeLayer (selectChapter c free) = activeLayer (handleStepEnter e story)
  /\ activeLayer (selectChapter c free)
     = match find_layer c with Some l => l | None => activeLayer s end
  /\ activeLayer (selectChapter c story) = activeLayer (selectChapter c free)
  /\ visibleId (selectChapter c free) = visibleId s
  /\ visibleId (handleStepEnter e story)
     = match find_layer c with Some _ => Some c | None => visibleId s end
  /\ freeMode (selectChapter c free) = true
  /\ freeMode (handleStepEnter e story) = false.
Proof.
  intros c free story.
  rewrite !selectChapter_find. unfold handleStepEnter. fold c.
  subst free story. simpl.
  destruct (find_layer c); simpl; repeat split; reflexivity.
Qed.

(** ** Overlay rendering *)


(** The opacity falls back to 0.6 exactly when the chapter gives none
    (an opacity of 0 is kept). *)
Lemma renderRaster_opacity (s : Session) (u : string) :
  url (activeLayer s) = Some u -> u <> "" ->
  renderRaster s
  = Some (RasterSource [u] 256
            (match opacity (activeLayer s) with Some o => o | None => 0.6 end)).
Proof.
  intros Hu Hne. unfold renderRaster. rewrite Hu.
  destruct u; [contradiction|reflexivity].
Qed.



(** ** Idle auto-rotation: one step *)

Lemma Qge_bool_true (a b : Q) : Qge_bool a b = true <-> b <= a.
Proof. unfold Qge_bool. apply Qle_bool_iff. Qed.

Lemma Qge_bool_false (a b : Q) : Qge_bool a b = false <-> a < b.
Proof.
  unfold Qge_bool. split; intros H.
  - apply Qnot_le_lt. intros Hle. apply Qle_bool_iff in Hle. congruence.
  - destruct (Qle_bool b a) eqn:E; [|reflexivity].
    apply Qle_bool_iff in E. exfalso. now apply (Qlt_not_le a b).
Qed.

Lemma Qgt_bool_true (a b : Q) : Qgt_bool a b = true <-> b < a.
Proof.
  unfold Qgt_bool. rewrite Bool.negb_true_iff. apply (Qge_bool_false b a).
Qed.

Lemma Qgt_bool_false (a b : Q) : Qgt_bool a b = false <-> a <= b.
Proof.
  unfold Qgt_bool. rewrite Bool.negb_false_iff. apply Qle_bool_iff.
Qed.

(** A spinning [spinGlobe] below the zoom threshold is one call of
    [map.easeTo], towards the centre moved by the increment of the zoom. *)
Lemma spinGlobe_spinning (i : nat) (w : World) :
  userInteracting w i = false ->
  getZoom (engine w) < 5 ->
  spinGlobe i w
  = with_engine
      (map_easeTo (westward (getCenter (engine w))
                            (spin_increment (getZoom (engine w))))) w.
Proof.
  intros Hu Hz. unfold spinGlobe. rewrite Hu. simpl negb. simpl orb. cbv iota.
  apply (Qge_bool_false _ maxSpinZoom) in Hz. rewrite Hz.
  unfold westward, spin_increment.
  now destruct (Qgt_bool (getZoom (engine w)) slowSpinZoom).
Qed.

Lemma full_rate : js_div 360 secondsPerRevolution == 3.
Proof. vm_compute. reflexivity. Qed.

(** A zoom between the thresholds lies on the grid of step [2^-51], so
    [5 - zoom] and its half are computed without rounding error. *)
Lemma zoom_factor_exact (z : Q) :
  binary64 z -> 3 < z -> z < 5 ->
  exists M : Z,
    (0 < M < 2 ^ 52)%Z
    /\ 5 - z == inject_Z M * (1 # 2251799813685248)
    /\ js_div (js_sub maxSpinZoom z) (js_sub maxSpinZoom slowSpinZoom)
       == (5 - z) / (5 - 3).
Proof.
  intros Hb H3 H5.
  assert (E1 : pow2 1 == 2) by reflexivity.
  assert (E51 : pow2 (-51) == 1 # 2251799813685248) by reflexivity.
  assert (E52 : pow2 (-52) == 1 # 4503599627370496) by reflexivity.
  destruct (binary64_grid z 1 Hb) as [N HN]; [rewrite E1; lra|].
  change (ulp_exp 1) with (-51)%Z in HN. rewrite E51 in HN.
  assert (HNlo : (6755399441055744 < N)%Z).
  { rewrite Zlt_Qlt.
    change (inject_Z 6755399441055744) with (6755399441055744 : Q).
    rewrite HN in H3. clear - H3. lra. }
  assert (HNhi : (N < 11258999068426240)%Z).
  { rewrite Zlt_Qlt.
    change (inject_Z 11258999068426240) with (11258999068426240 : Q).
    rewrite HN in H5. clear - H5. lra. }
  exists (11258999068426240 - N)%Z.
  assert (HM : 5 - z == inject_Z (11258999068426240 - N) * (1 # 2251799813685248)).
  { unfold Z.sub. rewrite inject_Z_plus, inject_Z_opp.
    change (inject_Z 11258999068426240) with (11258999068426240 : Q).
    rewrite HN. clear. lra. }
  change (2 ^ 52)%Z with 4503599627370496%Z.
  split; [lia|]. split; [exact HM|].
  unfold js_div, js_sub, maxSpinZoom, slowSpinZoom.
  assert (B1 : binary64 (5 - z)).
  { rewrite HM, <- E51. apply binary64_scaled; [|lia].
    change (2 ^ 53)%Z with 9007199254740992%Z. lia. }
  assert (B2 : fl (5 - 3) == 5 - 3) by (vm_compute; reflexivity).
  assert (B3 : binary64 ((5 - z) / (5 - 3))).
  { assert (E : (5 - z) / (5 - 3)
               == inject_Z (11258999068426240 - N) * pow2 (-52)).
    { rewrite E52. unfold Qdiv. rewrite HM.
      change (/ (5 - 3)) with (1 # 2). ring. }
    rewrite E. apply binary64_scaled; [|lia].
    change (2 ^ 53)%Z with 9007199254740992%Z. lia. }
  assert (E : fl (5 - z) / fl (5 - 3) == (5 - z) / (5 - 3)).
  { unfold binary64 in B1. rewrite B1, B2. reflexivity. }
  rewrite E. exact B3.
Qed.

(** The increment of a rotation step, by zoom. *)
Lemma spin_increment_by_zoom (z : Q) :
  (z <= 3 -> spin_increment z == 3)
  /\ (binary64 z -> 3 < z -> z < 5 ->
      spin_increment z == fl (3 * ((5 - z) / (5 - 3)))
      /\ 0 < spin_increment z /\ spin_increment z < 3).
Proof.
  unfold spin_increment. split.
  - intros H3. apply (Qgt_bool_false z slowSpinZoom) in H3. rewrite H3.
    exact full_rate.
  - intros Hb H3 H5.
    destruct (zoom_factor_exact z Hb H3 H5) as [M [HMb [HM Hf]]].
    apply (Qgt_bool_true z slowSpinZoom) in H3. rewrite H3.
    apply Qgt_bool_true in H3. unfold slowSpinZoom in H3.
    change (2 ^ 52)%Z with 4503599627370496%Z in HMb.
    assert (Hlo : 1 <= inject_Z M).
    { change 1 with (inject_Z 1). rewrite <- Zle_Qle. lia. }
    assert (Hhi : inject_Z M <= 4503599627370495).
    { change 4503599627370495 with (inject_Z 4503599627370495).
      rewrite <- Zle_Qle. lia. }
    assert (Hh : (5 - z) / (5 - 3) == inject_Z M * (1 # 4503599627370496)).
    { unfold Qdiv. rewrite HM. change (/ (5 - 3)) with (1 # 2). ring. }
    assert (Hpos : 0 <= js_div (js_sub maxSpinZoom z)
                           (js_sub maxSpinZoom slowSpinZoom)).
    { rewrite Hf, Hh. lra. }
    assert (Ed : js_mul (js_div 360 secondsPerRevolution)
                   (Qmax 0 (js_div (js_sub maxSpinZoom z)
                                   (js_sub maxSpinZoom slowSpinZoom)))
                 == fl (3 * ((5 - z) / (5 - 3)))).
    { unfold js_mul. apply fl_proper.
      rewrite (Q.max_r _ _ Hpos), Hf, full_rate. reflexivity. }
    split; [exact Ed|]. rewrite Ed. split.
    + apply Qlt_le_trans with (1 # 4503599627370496); [reflexivity|].
      apply fl_ge.
      * assert (E : (1 # 4503599627370496) == inject_Z 1 * pow2 (-52))
          by reflexivity.
        rewrite E. apply binary64_scaled; [reflexivity|lia].
      * rewrite Hh. lra.
    + apply Qle_lt_trans with (6755399441055743 # 2251799813685248);
        [|reflexivity].
      apply fl_le.
      * assert (E : (6755399441055743 # 2251799813685248)
                    == inject_Z 6755399441055743 * pow2 (-51))
          by reflexivity.
        rewrite E. apply binary64_scaled; [reflexivity|lia].
      * rewrite Hh. lra.
Qed.

(** A rotation step never targets a longitude east of the current one. *)
Lemma westward_not_east (c : LngLat) (d : Q) :
  binary64 (lng c) -> 0 <= d -> lng (ease_center (westward c d)) <= lng c.
Proof.
  intros Hb Hd. unfold westward, js_sub. simpl.
  apply fl_le; [exact Hb|lra].
Qed.

(** C3, as written: at the zoom just below 5, with the camera at
    longitude 100, the loop is spinning and a rotation step is issued,
    but the increment, 3 * 2^-51 degrees, is lost when it is subtracted
    from the longitude: the step targets longitude 100 again and does not
    decrease it. *)
Lemma rotation_step_keeps_longitude_counterexample :
  let z := 5629499534213119 # 1125899906842624 in
  let w := with_engine (move_camera z {| lng := 100; lat := 0 |})
                       (mount false false) in
  binary64 z /\ 3 < z /\ z < 5 /\ binary64 100
  /\ userInteracting w 0 = false
  /\ exists o,
       issued (engine (spinGlobe 0 w)) = [EaseTo o]
       /\ lng (ease_center o) == lng (getCenter (engine w))
       /\ ~ lng (ease_center o) < lng (getCenter (engine w)).
Proof.
  intros z w.
  split; [vm_compute; reflexivity|].
  split; [reflexivity|]. split; [reflexivity|].
  split; [vm_compute; reflexivity|]. split; [reflexivity|].
  eexists. split; [reflexivity|].
  split; [vm_compute; reflexivity|].
  vm_compute. discriminate.
Qed.

(** C3, amended.  One call of [spinGlobe] while the loop is spinning
    ([userInteracting] false), the zoom and the longitude of the camera
    being binary64 numbers.  At zoom 5 or more nothing is issued and
    nothing changes.  Below 5 the call is one [easeTo], lasting 1000 ms,
    with the identity as easing, towards the current centre with the
    longitude [lng - d] rounded to binary64, which is never east of the
    current longitude: [d] is 360/120 = 3 at zoom 3 or less, and the
    rounded product 3 * ((5 - zoom)/(5 - 3)), strictly between 0 and 3,
    for a zoom strictly between 3 and 5. *)
Theorem spinGlobe_step_by_zoom (i : nat) (w : World) :
  userInteracting w i = false ->
  let z := getZoom (engine w) in
  let c := getCenter (engine w) in
  binary64 z -> binary64 (lng c) ->
  (5 <= z -> spinGlobe i w = w)
  /\ (z < 5 ->
      exists d : Q,
        let o := {| ease_center := {| lng := fl (lng c - d); lat := lat c |};
                    duration := 1000;
                    ease_easing := fun n => n;
                    essential := true |} in
        spinGlobe i w = with_engine (map_easeTo o) w
        /\ In (EaseTo o) (issued (engine (spinGlobe i w)))
        /\ fl (lng c - d) <= lng c
        /\ (z <= 3 -> d == 3)
        /\ (3 < z -> d == fl (3 * ((5 - z) / (5 - 3))) /\ 0 < d /\ d < 3)).
Proof.
  intros Hu z c Hbz Hbc. split.
  - intros H5. unfold spinGlobe. rewrite Hu. simpl negb. simpl orb. cbv iota.
    apply (Qge_bool_true _ maxSpinZoom) in H5. unfold z in H5. now rewrite H5.
  - intros H5. exists (spin_increment z). intros o.
    assert (E : spinGlobe i w = with_engine (map_easeTo o) w)
      by (apply spinGlobe_spinning; assumption).
    destruct (spin_increment_by_zoom z) as [Hslow Hfast].
    split; [exact E|]. split.
    { rewrite E. simpl. apply in_or_app. right. now left. }
    split.
    { apply (westward_not_east c (spin_increment z) Hbc).
      destruct (Qlt_le_dec 3 z) as [H3|H3].
      - destruct (Hfast Hbz H3 H5) as [_ [Hd _]]. lra.
      - rewrite (Hslow H3). lra. }
    split; [exact Hslow|].
    intros H3. apply Hfast; assumption.
Qed.

Lemma spinGlobe_step_by_zoom_witness :
  let w := with_engine
             (move_camera (2758454771764429 # 562949953421312)
                          {| lng := 10; lat := 0 |})
             (mount false false) in
  exists d : Q,
    In (EaseTo {| ease_center := {| lng := fl (10 - d); lat := 0 |};
                  duration := 1000; ease_easing := fun n => n;
                  essential := true |})
       (issued (engine (spinGlobe 0 w)))
    /\ 0 < d /\ d < 3.
Proof.
  intros w.
  assert (Hz : binary64 (getZoom (engine w))) by (vm_compute; reflexivity).
  assert (Hc : binary64 (lng (getCenter (engine w))))
    by (vm_compute; reflexivity).
  destruct (spinGlobe_step_by_zoom 0 w eq_refl Hz Hc) as [_ H].
  destruct (H eq_refl) as [d [_ [Hi [_ [_ Hd]]]]].
  exists d. split; [exact Hi|].
  destruct (Hd eq_refl) as [_ Hb]. exact Hb.
Defined.

(** The step at zoom 4.9 from longitude 10, as the engine receives it:
    the increment is 0.14999999999999947 and the target longitude
    9.850000000000001. *)
Example spinGlobe_at_zoom_4_9 :
  let w := with_engine
             (move_camera (2758454771764429 # 562949953421312)
                          {| lng := 10; lat := 0 |})
             (mount false false) in
  exists o,
    issued (engine (spinGlobe 0 w)) = [EaseTo o]
    /\ lng (ease_center o) == 1386264260299981 # 140737488355328.
Proof.
  intros w. eexists. split; [reflexivity|]. vm_compute. reflexivity.
Qed.

(** ** What the effects send to the map *)

Lemma spinGlobe_cases (i : nat) (w : World) :
  spinGlobe i w = w \/ exists o, spinGlobe i w = with_engine (map_easeTo o) w.
Proof.
  unfold spinGlobe.
  destruct (negb spinEnabled || userInteracting w i); [now left|].
  destruct (Qge_bool (getZoom (engine w)) maxSpinZoom); [now left|].
  right. eexists. reflexivity.
Qed.

(** Whether a spinning [spinGlobe] issues its step is decided by the
    zoom threshold alone. *)
Lemma spinGlobe_threshold (i : nat) (w : World) :
  userInteracting w i = false ->
  (5 <= getZoom (engine w) -> spinGlobe i w = w)
  /\ (getZoom (engine w) < 5 ->
      exists o, spinGlobe i w = with_engine (map_easeTo o) w).
Proof.
  intros Hu. unfold spinGlobe. rewrite Hu. simpl negb. simpl orb. cbv iota.
  split; intros Hz.
  - apply (Qge_bool_true _ maxSpinZoom) in Hz. now rewrite Hz.
  - apply (Qge_bool_false _ maxSpinZoom) in Hz. rewrite Hz.
    eexists. reflexivity.
Qed.

(** [spinGlobe] touches nothing but the animation and the command log,
    to which it adds at most one [easeTo]. *)
Lemma spinGlobe_frame (i : nat) (w : World) :
  session (spinGlobe i w) = session w
  /\ mapRef (spinGlobe i w) = mapRef w
  /\ userInteracting (spinGlobe i w) = userInteracting w
  /\ effect_runs (spinGlobe i w) = effect_runs w
  /\ rotation_cleanup (spinGlobe i w) = rotation_cleanup w
  /\ listeners (engine (spinGlobe i w)) = listeners (engine w)
  /\ getZoom (engine (spinGlobe i w)) = getZoom (engine w)
  /\ getCenter (engine (spinGlobe i w)) = getCenter (engine w)
  /\ exists pre, issued (engine (spinGlobe i w)) = issued (engine w) ++ pre
                 /\ Forall (fun c => is_easeTo c = true) pre.
Proof.
  destruct (spinGlobe_cases i w) as [E|[o E]]; rewrite E; simpl.
  - repeat split; try reflexivity. exists []. rewrite app_nil_r. auto.
  - repeat split; try reflexivity. exists [EaseTo o]. auto.
Qed.

Lemma Listener_eqb_refl (x : Listener) : Listener_eqb x x = true.
Proof.
  destruct x as [t [i c]]. unfold Listener_eqb, Closure_eqb. simpl.
  rewrite Nat.eqb_refl. now destruct t, c.
Qed.

Lemma remove_first_head (x : Listener) (l : list Listener) :
  remove_first x (x :: l) = l.
Proof. simpl. now rewrite Listener_eqb_refl. Qed.

(** The cleanup of run [i] empties a registry that holds the six
    registrations of run [i]. *)
Lemma remove_own_registrations (i : nat) (w : World) :
  listeners (engine w) = rotation_listeners i ->
  listeners (engine (rotationCleanup i w)) = [].
Proof.
  intros H.
  assert (E : forall f w0, engine (with_engine f w0) = f (engine w0)) by reflexivity.
  assert (Eoff : forall t fn m,
            listeners (map_off t fn m)
            = remove_first {| on_event := t; handler := fn |} (listeners m))
    by reflexivity.
  assert (Estop : forall m, listeners (map_stop m) = listeners m) by reflexivity.
  unfold rotationCleanup. cbv zeta.
  rewrite !E, Estop, !Eoff, H. unfold rotation_listeners.
  now rewrite !remove_first_head.
Qed.

(** The three ways the auto-rotation effect body can go. *)
Lemma rotationEffect_cases (w : World) :
  (rotationEffect w = set_cleanup None w
   /\ (mapLoaded (session w) = false \/ mapRef w = false))
  \/ (rotationEffect w = set_cleanup None (with_engine map_stop w)
      /\ mapLoaded (session w) = true /\ mapRef w = true
      /\ id (activeLayer (session w)) <> "intro-globe")
  \/ (mapLoaded (session w) = true /\ mapRef w = true
      /\ id (activeLayer (session w)) = "intro-globe"
      /\ exists w1,
           rotationEffect w = set_cleanup (Some (effect_runs w)) (spinGlobe (effect_runs w) w1)
           /\ session w1 = session w /\ mapRef w1 = mapRef w
           /\ listeners (engine w1) = listeners (engine w) ++ rotation_listeners (effect_runs w)
           /\ issued (engine w1) = issued (engine w)
           /\ animation (engine w1) = animation (engine w)
           /\ getZoom (engine w1) = getZoom (engine w)
           /\ getCenter (engine w1) = getCenter (engine w)
           /\ userInteracting w1 (effect_runs w) = false
           /\ effect_runs w1 = S (effect_runs w)).
Proof.
  unfold rotationEffect.
  destruct (mapLoaded (session w)); simpl; [|left; auto].
  destruct (mapRef w) eqn:Er; simpl; [|left; auto].
  destruct (String.eqb_spec (id (activeLayer (session w))) "intro-globe") as [E|N]; simpl.
  - right. right. repeat split; try assumption.
    eexists. split; [reflexivity|]. simpl.
    rewrite Nat.eqb_refl, <- !app_assoc. simpl. repeat split; auto.
  - right. left. auto.
Qed.

(** The effect body adds to the log nothing but [stop]s and rotation
    steps, and only [stop]s outside the intro chapter. *)
Lemma rotationEffect_frame (w : World) :
  session (rotationEffect w) = session w
  /\ mapRef (rotationEffect w) = mapRef w
  /\ exists pre, issued (engine (rotationEffect w)) = issued (engine w) ++ pre
       /\ Forall (fun c => is_flyTo c = false) pre
       /\ (id (activeLayer (session w)) <> "intro-globe" ->
           Forall (fun c => c = Stop) pre).
Proof.
  destruct (rotationEffect_cases w) as [[E _]|[[E _]|[_ [_ [Hid [w1 [E H1]]]]]]];
    rewrite E; simpl.
  - repeat split. exists []. rewrite app_nil_r. auto.
  - repeat split. exists [Stop]. auto.
  - destruct H1 as [Hs [Hr [_ [Hi _]]]].
    destruct (spinGlobe_frame (effect_runs w) w1) as [Fs [Fr [_ [_ [_ [_ [_ [_ [pre [Fi Fp]]]]]]]]]].
    rewrite Fs, Fr, Fi, Hs, Hr, Hi. repeat split.
    exists pre. repeat split.
    + eapply Forall_impl; [|exact Fp]. intros c Hc. now destruct c.
    + intros N. contradiction.
Qed.

(** ** Camera transition *)


(** A re-render after the active chapter changed runs both effects. *)
Lemma commit_chapter_changed (prev : Session) (w : World) :
  same_object (activeLayer prev) (activeLayer (session w)) = false ->
  commit prev w
  = flyToEffect
      (rotationEffect
         match rotation_cleanup w with
         | Some i => set_cleanup None (rotationCleanup i w)
         | None => w
         end).
Proof.
  intros H. unfold commit, same_object. unfold same_object in H.
  rewrite H, Bool.andb_false_r. reflexivity.
Qed.


(** The commands of an update that changes the active chapter, in issue
    order: the [stop] of the pending cleanup, what the auto-rotation
    effect body sends, and the [flyTo] when the map instance is there. *)
Lemma update_chapter_changed (f : Session -> Session) (w : World) :
  same_object (activeLayer (session w)) (activeLayer (f (session w))) = false ->
  let a := activeLayer (f (session w)) in
  let w' := update f w in
  session w' = f (session w)
  /\ exists pre,
       issued (engine w')
       = issued (engine w)
         ++ match rotation_cleanup w with Some _ => [Stop] | None => [] end
         ++ pre
         ++ (if mapRef w then [FlyTo (flyTo_options a)] else [])
       /\ Forall (fun c => is_flyTo c = false) pre
       /\ (id a <> "intro-globe" -> Forall (fun c => c = Stop) pre)
       /\ (mapRef w = false -> pre = [])
       /\ (mapRef w = true -> animation (engine w') = Some (FlyTo (flyTo_options a))).
Proof.
  intros Hch a w'.
  assert (E : w' = flyToEffect (rotationEffect
            match rotation_cleanup (with_session f w) with
            | Some i => set_cleanup None (rotationCleanup i (with_session f w))
            | None => with_session f w
            end)).
  { subst w'. unfold update. now apply commit_chapter_changed. }
  set (w1 := match rotation_cleanup (with_session f w) with
             | Some i => set_cleanup None (rotationCleanup i (with_session f w))
             | None => with_session f w
             end) in *.
  assert (H1 : session w1 = f (session w) /\ mapRef w1 = mapRef w
               /\ issued (engine w1)
                  = issued (engine w)
                    ++ match rotation_cleanup w with Some _ => [Stop] | None => [] end).
  { subst w1. simpl. destruct (rotation_cleanup w); simpl; repeat split.
    now rewrite app_nil_r. }
  destruct H1 as [Hs1 [Hr1 Hi1]].
  destruct (rotationEffect_frame w1) as [Hs2 [Hr2 [pre2 [Hi2 [Hp2 Hp2']]]]].
  rewrite Hs1 in Hs2, Hp2'. fold a in Hp2'. rewrite Hr1 in Hr2. rewrite Hi1 in Hi2.
  assert (Hs' : session w' = f (session w)).
  { rewrite E. unfold flyToEffect. now destruct (negb (mapRef (rotationEffect w1))). }
  split; [exact Hs'|].
  destruct (mapRef w) eqn:Hm.
  - exists pre2. rewrite E. unfold flyToEffect. rewrite Hr2. simpl.
    rewrite Hs2, Hi2. fold a.
    split; [now rewrite <- !app_assoc|]. repeat split; auto. discriminate.
  - exists []. rewrite E. unfold flyToEffect. rewrite Hr2. simpl.
    destruct (rotationEffect_cases w1) as [[E1 _]|[[_ [_ [C _]]]|[_ [C _]]]];
      try (rewrite Hr1 in C; congruence).
    rewrite E1. simpl. rewrite Hi1.
    split; [now rewrite !app_nil_r|]. repeat split; auto. discriminate.
Qed.





(** ** The invariant of the component *)

Lemma flyToEffect_frame (w : World) :
  session (flyToEffect w) = session w
  /\ mapRef (flyToEffect w) = mapRef w
  /\ rotation_cleanup (flyToEffect w) = rotation_cleanup w
  /\ listeners (engine (flyToEffect w)) = listeners (engine w)
  /\ ((forall o, animation (engine w) <> Some (EaseTo o)) ->
      forall o, animation (engine (flyToEffect w)) <> Some (EaseTo o)).
Proof.
  unfold flyToEffect. destruct (negb (mapRef w)); simpl; repeat split; auto.
  intros _ o. discriminate.
Qed.

Lemma commit_session (prev : Session) (w : World) :
  session (commit prev w) = session w.
Proof.
  unfold commit.
  set (w1 := match rotation_cleanup w with
             | Some i => set_cleanup None (rotationCleanup i w)
             | None => w
             end).
  assert (H1 : session w1 = session w) by (subst w1; now destruct (rotation_cleanup w)).
  destruct (Bool.eqb _ _ && String.eqb _ _);
    destruct (same_object _ _); try reflexivity.
  - apply flyToEffect_frame.
  - destruct (rotationEffect_frame w1) as [H2 _]. now rewrite H2.
  - destruct (flyToEffect_frame (rotationEffect w1)) as [H3 _].
    destruct (rotationEffect_frame w1) as [H2 _]. now rewrite H3, H2.
Qed.

Lemma session_update (f : Session -> Session) (w : World) :
  session (update f w) = f (session w).
Proof. unfold update. now rewrite commit_session. Qed.

(** A registered function leaves the session, the registry and React's
    bookkeeping alone. *)
Lemma call_frame (fn : Closure) (w : World) :
  session (call fn w) = session w
  /\ mapRef (call fn w) = mapRef w
  /\ effect_runs (call fn w) = effect_runs w
  /\ rotation_cleanup (call fn w) = rotation_cleanup w
  /\ listeners (engine (call fn w)) = listeners (engine w).
Proof.
  unfold call. destruct (code_of fn).
  - unfold pause. repeat split.
  - unfold resume.
    destruct (spinGlobe_frame (run_of fn) (set_userInteracting (run_of fn) false w))
      as [H1 [H2 [_ [H4 [H5 [H6 _]]]]]].
    now rewrite H1, H2, H4, H5, H6.
  - destruct (spinGlobe_frame (run_of fn) w) as [H1 [H2 [_ [H4 [H5 [H6 _]]]]]].
    now rewrite H1, H2, H4, H5, H6.
Qed.

Lemma dispatch_frame (t : EventType) (l : list Listener) (w : World) :
  let w' := fold_left
              (fun w l => if EventType_eqb (on_event l) t then call (handler l) w else w)
              l w in
  session w' = session w
  /\ mapRef w' = mapRef w
  /\ effect_runs w' = effect_runs w
  /\ rotation_cleanup w' = rotation_cleanup w
  /\ listeners (engine w') = listeners (engine w).
Proof.
  revert w. induction l as [|x tl IH]; intros w; simpl; [repeat split|].
  destruct (EventType_eqb (on_event x) t).
  - destruct (IH (call (handler x) w)) as [H1 [H2 [H3 [H4 H5]]]].
    destruct (call_frame (handler x) w) as [C1 [C2 [C3 [C4 C5]]]].
    simpl in *. now rewrite H1, H2, H3, H4, H5, C1, C2, C3, C4, C5.
  - apply IH.
Qed.

Lemma fire_frame (t : EventType) (w : World) :
  session (fire t w) = session w
  /\ mapRef (fire t w) = mapRef w
  /\ effect_runs (fire t w) = effect_runs w
  /\ rotation_cleanup (fire t w) = rotation_cleanup w
  /\ listeners (engine (fire t w)) = listeners (engine w).
Proof. apply dispatch_frame. Qed.

(** With an empty registry an engine notification reaches nobody. *)
Lemma fire_nobody (t : EventType) (w : World) :
  listeners (engine w) = [] -> fire t w = w.
Proof. intros H. unfold fire. now rewrite H. Qed.

(** With the six registrations of run [i], each notification runs
    exactly one function of run [i]. *)
Lemma fire_registered (i : nat) (w : World) :
  listeners (engine w) = rotation_listeners i ->
  fire mousedown w = pause i w
  /\ fire mouseup w = resume i w
  /\ fire dragend w = resume i w
  /\ fire pitchend w = resume i w
  /\ fire rotateend w = resume i w
  /\ fire moveend w = spinGlobe i w.
Proof.
  intros H. unfold fire. rewrite H. repeat split.
Qed.

Lemma mount_consistent (mobile ref : bool) : consistent (mount mobile ref).
Proof.
  destruct mobile, ref; (split; [simpl; auto|]); simpl;
    (split; [reflexivity|intros o; discriminate]).
Qed.

Lemma fire_consistent (t : EventType) (w : World) :
  consistent w -> consistent (fire t w).
Proof.
  intros [Hin Hc]. destruct (rotation_cleanup w) as [i|] eqn:Ec.
  - destruct (fire_frame t w) as [H1 [_ [_ [H4 H5]]]].
    unfold consistent. now rewrite H1, H4, H5, Ec.
  - destruct Hc as [Hl Ha]. rewrite (fire_nobody t w Hl).
    unfold consistent. now rewrite Ec.
Qed.

Lemma end_animation_consistent (w : World) :
  consistent w -> consistent (with_engine end_animation w).
Proof.
  intros [Hin Hc]. split; [exact Hin|]. simpl.
  destruct (rotation_cleanup w); [exact Hc|].
  split; [apply Hc|]. intros o. discriminate.
Qed.

(** A state update keeps the component consistent, provided it keeps the
    active chapter inside the catalog. *)
Lemma update_consistent (f : Session -> Session) (w : World) :
  consistent w ->
  In (activeLayer (f (session w))) LAYERS ->
  consistent (update f w).
Proof.
  intros [Hin Hc] Hin'. unfold update, commit.
  set (w0 := with_session f w).
  change (session w0) with (f (session w)).
  change (rotation_cleanup w0) with (rotation_cleanup w).
  destruct (Bool.eqb (mapLoaded (session w)) (mapLoaded (f (session w)))
            && String.eqb (id (activeLayer (session w))) (id (activeLayer (f (session w)))))
    eqn:Edeps.
  - (* same auto-rotation dependencies: the id is the same *)
    apply Bool.andb_true_iff in Edeps. destruct Edeps as [_ Eid].
    unfold same_object. rewrite Eid. apply String.eqb_eq in Eid.
    split; [exact Hin'|]. simpl.
    destruct (rotation_cleanup w); [|exact Hc].
    destruct Hc as [Hl Hi]. split; [exact Hl|]. now rewrite <- Eid.
  - set (w1 := match rotation_cleanup w with
               | Some i => set_cleanup None (rotationCleanup i w0)
               | None => w0
               end).
    assert (H1 : session w1 = f (session w) /\ rotation_cleanup w1 = None
                 /\ listeners (engine w1) = []
                 /\ forall o, animation (engine w1) <> Some (EaseTo o)).
    { subst w1. destruct (rotation_cleanup w) as [i|] eqn:Ec.
      - destruct Hc as [Hl _]. repeat split.
        + now apply (remove_own_registrations i w0).
        + intros o. discriminate.
      - destruct Hc as [Hl Ha]. repeat split; assumption. }
    destruct H1 as [Hs1 [Hc1 [Hl1 Ha1]]].
    assert (H2 : consistent (rotationEffect w1)).
    { destruct (rotationEffect_cases w1) as [[E _]|[[E _]|[_ [_ [Hid [w2 [E H2]]]]]]];
        rewrite E.
      - split; simpl; [now rewrite Hs1|]. split; assumption.
      - split; simpl; [now rewrite Hs1|]. split; [assumption|]. intros o. discriminate.
      - destruct H2 as [Hs2 [_ [Hl2 _]]].
        destruct (spinGlobe_frame (effect_runs w1) w2) as [Fs [_ [_ [_ [_ [Fl _]]]]]].
        split; simpl; rewrite Fs, Hs2; [now rewrite Hs1|].
        rewrite Fl, Hl2, Hl1. split; [reflexivity|exact Hid]. }
    destruct (same_object (activeLayer (session w)) (activeLayer (f (session w))));
      [exact H2|].
    destruct H2 as [Hin2 Hc2].
    destruct (flyToEffect_frame (rotationEffect w1)) as [G1 [_ [G3 [G4 G5]]]].
    unfold consistent. rewrite G1, G3, G4. split; [exact Hin2|].
    destruct (rotation_cleanup (rotationEffect w1)); [exact Hc2|].
    split; [apply Hc2|]. apply G5, Hc2.
Qed.

Lemma handleStepEnter_in_catalog (e : StepEnterEvent) (s : Session) :
  In (activeLayer s) LAYERS -> In (activeLayer (handleStepEnter e s)) LAYERS.
Proof.
  intros H. unfold handleStepEnter. destruct (freeMode s); [exact H|].
  destruct (find_layer _) as [l|] eqn:E; [|exact H].
  simpl. now apply find_layer_Some in E.
Qed.

Lemma selectChapter_in_catalog (c : string) (s : Session) :
  In (activeLayer s) LAYERS -> In (activeLayer (selectChapter c s)) LAYERS.
Proof.
  intros H. rewrite selectChapter_find.
  destruct (find_layer c) as [l|] eqn:E; [|exact H].
  simpl. now apply find_layer_Some in E.
Qed.

Lemma step_consistent (w : World) (ev : Event) :
  consistent w -> consistent (step w ev).
Proof.
  intros Hc. destruct ev as [b| |e| |c|t|z ctr]; simpl.
  - exact Hc.
  - apply update_consistent; [exact Hc|apply Hc].
  - destruct (scroll_panel_rendered (session w)); [|exact Hc].
    apply update_consistent; [exact Hc|]. apply handleStepEnter_in_catalog, Hc.
  - destruct (toggle_rendered (session w)); [|exact Hc].
    apply update_consistent; [exact Hc|apply Hc].
  - destruct (picker_rendered (session w)); [|exact Hc].
    apply update_consistent; [exact Hc|]. apply selectChapter_in_catalog, Hc.
  - destruct t; try now apply fire_consistent.
    apply fire_consistent, end_animation_consistent, Hc.
  - exact Hc.
Qed.

(** Every state the component can reach is consistent. *)
Lemma run_consistent (evs : list Event) (w : World) :
  consistent w -> consistent (run evs w).
Proof.
  revert w. induction evs as [|ev tl IH]; intros w Hc; simpl; [exact Hc|].
  apply IH, step_consistent, Hc.
Qed.

(** ** Leaving the intro chapter *)

(** An event that changes the active chapter is a state update of the
    component (in fact the scroll notification or the chapter picker). *)
Lemma step_changes_chapter (w : World) (ev : Event) :
  id (activeLayer (session (step w ev))) <> id (activeLayer (session w)) ->
  exists f, step w ev = update f w.
Proof.
  destruct ev as [b| |e| |c|t|z ctr]; simpl; intros N.
  - now elim N.
  - rewrite session_update in N. now elim N.
  - destruct (scroll_panel_rendered (session w)); [|now elim N].
    now exists (handleStepEnter e).
  - destruct (toggle_rendered (session w)); [|now elim N].
    now exists toggleFreeMode.
  - destruct (picker_rendered (session w)); [|now elim N].
    now exists (selectChapter c).
  - exfalso. apply N. destruct t.
    + destruct (fire_frame mousedown w) as [H _]. now rewrite H.
    + destruct (fire_frame mouseup w) as [H _]. now rewrite H.
    + destruct (fire_frame dragend w) as [H _]. now rewrite H.
    + destruct (fire_frame pitchend w) as [H _]. now rewrite H.
    + destruct (fire_frame rotateend w) as [H _]. now rewrite H.
    + destruct (fire_frame moveend (with_engine end_animation w)) as [H _].
      now rewrite H.
  - now elim N.
Qed.

(** Outside the intro chapter nothing of the auto-rotation is left. *)
Lemma consistent_outside_intro (w : World) :
  consistent w ->
  id (activeLayer (session w)) <> "intro-globe" ->
  listeners (engine w) = [] /\ rotation_cleanup w = None
  /\ forall o, animation (engine w) <> Some (EaseTo o).
Proof.
  intros [_ Hc] N. destruct (rotation_cleanup w).
  - destruct Hc as [_ E]. contradiction.
  - destruct Hc. auto.
Qed.

Lemma consistent_registry (w : World) :
  consistent w ->
  (List.length (listeners (engine w)) <= 6)%nat
  /\ (listeners (engine w) <> [] ->
      exists i, rotation_cleanup w = Some i
                /\ listeners (engine w) = rotation_listeners i).
Proof.
  intros [_ Hc]. destruct (rotation_cleanup w) as [i|].
  - destruct Hc as [Hl _]. rewrite Hl. split; [simpl; lia|]. intros _. now exists i.
  - destruct Hc as [Hl _]. rewrite Hl. split; [simpl; lia|]. intros N. now elim N.
Qed.

Lemma rotation_steps_of_stops (l : list Command) :
  Forall (fun c => c = Stop) l -> rotation_steps l = [].
Proof.
  induction 1 as [|c tl Hc _ IH]; [reflexivity|]. subst c. exact IH.
Qed.

(** C4. In every reachable state: outside the intro chapter the
    registry of the map is empty and no cleanup is pending, and inside it
    the registry never holds more than the six registrations of the one
    live effect run, however many times the intro chapter was entered and
    left.  An event that takes the active chapter from the intro chapter
    to another one leaves, in that same step, an empty registry, no
    rotation step under way, and issues no rotation step; when listeners
    were registered, the first command of the step is [stop]. *)
Theorem leaving_intro_releases_rotation (mobile ref : bool) (evs : list Event)
    (ev : Event) :
  let w := run evs (mount mobile ref) in
  let w' := step w ev in
  (id (activeLayer (session w)) <> "intro-globe" ->
   listeners (engine w) = [] /\ rotation_cleanup w = None)
  /\ (List.length (listeners (engine w)) <= 6)%nat
  /\ (id (activeLayer (session w)) = "intro-globe" ->
      id (activeLayer (session w')) <> "intro-globe" ->
      listeners (engine w') = []
      /\ rotation_cleanup w' = None
      /\ (forall o, animation (engine w') <> Some (EaseTo o))
      /\ exists cmds,
           issued (engine w') = issued (engine w) ++ cmds
           /\ rotation_steps cmds = []
           /\ (listeners (engine w) <> [] -> hd_error cmds = Some Stop)).
Proof.
  intros w w'.
  assert (Hc : consistent w) by apply run_consistent, mount_consistent.
  assert (Hc' : consistent w') by apply step_consistent, Hc.
  split; [|split].
  - intros N. destruct (consistent_outside_intro w Hc N) as [H1 [H2 _]]. auto.
  - apply consistent_registry, Hc.
  - intros Ei N.
    destruct (consistent_outside_intro w' Hc' N) as [H1 [H2 H3]].
    do 3 (split; [assumption|]).
    assert (Nid : id (activeLayer (session w')) <> id (activeLayer (session w)))
      by (rewrite Ei; exact N).
    destruct (step_changes_chapter w ev Nid) as [f Ef].
    fold w' in Ef. rewrite Ef in Nid |- *. rewrite session_update in Nid.
    assert (Hch : same_object (activeLayer (session w)) (activeLayer (f (session w))) = false).
    { unfold same_object. apply String.eqb_neq. congruence. }
    destruct (update_chapter_changed f w Hch) as [_ [pre [Hi [_ [Hs _]]]]].
    assert (Hstops : Forall (fun c => c = Stop) pre).
    { apply Hs. rewrite Ef, session_update in N. exact N. }
    eexists. split; [exact Hi|]. split.
    + unfold rotation_steps. rewrite !filter_app.
      fold (rotation_steps pre). rewrite (rotation_steps_of_stops pre Hstops).
      destruct (rotation_cleanup w); destruct (mapRef w); reflexivity.
    + intros Hne. destruct (consistent_registry w Hc) as [_ Hr].
      destruct (Hr Hne) as [i [Ei' _]]. now rewrite Ei'.
Qed.

Lemma leaving_intro_releases_rotation_witness :
  let w := run [OnLoad] (mount false true) in
  let e := {| data := {| data_id := "no2-monthly" |}; direction := down;
              entry := {| isIntersecting := true; intersectionRatio := 1 |};
              index := 2%Z |} in
  List.length (listeners (engine w)) = 6%nat
  /\ listeners (engine (step w (StepEnter e))) = []
  /\ rotation_cleanup (step w (StepEnter e)) = None.
Proof.
  intros w e. split; [reflexivity|].
  destruct (leaving_intro_releases_rotation false true [OnLoad] (StepEnter e))
    as [_ [_ H]].
  assert (N : id (activeLayer (session (step w (StepEnter e)))) <> "intro-globe")
    by (vm_compute; discriminate).
  destruct (H eq_refl N) as [H1 [H2 _]]. split; assumption.
Defined.

(** ** Pause and resume *)

(** While run [i] is live and paused, engine activity other than a
    release keeps it paused and issues no rotation step. *)
Lemma paused_stays_paused (i : nat) (quiet : list Event) (w : World) :
  rotation_cleanup w = Some i ->
  listeners (engine w) = rotation_listeners i ->
  userInteracting w i = true ->
  forallb no_release quiet = true ->
  userInteracting (run quiet w) i = true
  /\ rotation_cleanup (run quiet w) = Some i
  /\ rotation_steps (issued (engine (run quiet w))) = rotation_steps (issued (engine w)).
Proof.
  revert w. induction quiet as [|ev tl IH]; intros w Hc Hl Hu Hq; simpl; [auto|].
  simpl in Hq. apply Bool.andb_true_iff in Hq. destruct Hq as [Hev Htl].
  assert (Hstep : rotation_cleanup (step w ev) = Some i
                  /\ listeners (engine (step w ev)) = rotation_listeners i
                  /\ userInteracting (step w ev) i = true
                  /\ rotation_steps (issued (engine (step w ev)))
                     = rotation_steps (issued (engine w))).
  { destruct ev as [b| |e| |c|t|z ctr]; try discriminate Hev.
    - destruct t; try discriminate Hev; simpl.
      + destruct (fire_registered i w Hl) as [E _]. rewrite E.
        unfold pause. simpl. rewrite Nat.eqb_refl.
        repeat split; try assumption.
        unfold rotation_steps. rewrite filter_app. simpl. now rewrite app_nil_r.
      + destruct (fire_registered i (with_engine end_animation w) Hl)
          as [_ [_ [_ [_ [_ E]]]]].
        rewrite E. unfold spinGlobe. simpl. rewrite Hu. simpl.
        repeat split; assumption.
    - simpl. repeat split; assumption. }
  destruct Hstep as [Hc1 [Hl1 [Hu1 Hr1]]].
  destruct (IH (step w ev) Hc1 Hl1 Hu1 Htl) as [A [B C]].
  repeat split; try assumption. now rewrite C.
Qed.

(** C8. While an auto-rotation effect run [i] is live (the intro
    chapter state machine).  Pointer down pauses it: [userInteracting]
    becomes true and the map is told to [stop].  While paused, engine
    activity other than a release (completed camera moves, camera
    changes, further pointer downs), in any number and order, keeps it
    paused and issues no rotation step.  Pointer up and the end of a drag,
    pitch or rotate gesture resume it: [userInteracting] becomes false
    and, below zoom 5, the rotation step from the current centre by the
    increment of the current zoom is issued again, and nothing but that
    step; at zoom 5 or more nothing is issued.  While spinning, each
    completed camera move does the same. *)
Theorem pause_on_pointer_down_resume_on_release (mobile ref : bool)
    (evs : list Event) (i : nat) :
  let w := run evs (mount mobile ref) in
  let o := westward (getCenter (engine w)) (spin_increment (getZoom (engine w))) in
  rotation_cleanup w = Some i ->
  (let w1 := step w (MapEvent mousedown) in
   userInteracting w1 i = true
   /\ animation (engine w1) = None
   /\ issued (engine w1) = issued (engine w) ++ [Stop])
  /\ (userInteracting w i = true ->
      forall quiet, forallb no_release quiet = true ->
      userInteracting (run quiet w) i = true
      /\ rotation_steps (issued (engine (run quiet w)))
         = rotation_steps (issued (engine w)))
  /\ (forall t, In t [mouseup; dragend; pitchend; rotateend] ->
      let w3 := step w (MapEvent t) in
      userInteracting w3 i = false
      /\ (getZoom (engine w) < 5 ->
          exists sent,
            issued (engine w3) = issued (engine w) ++ sent
            /\ sent <> []
            /\ Forall (fun c => c = EaseTo o) sent)
      /\ (5 <= getZoom (engine w) -> issued (engine w3) = issued (engine w)))
  /\ (userInteracting w i = false ->
      let w4 := step w (MapEvent moveend) in
      userInteracting w4 i = false
      /\ (getZoom (engine w) < 5 ->
          exists sent,
            issued (engine w4) = issued (engine w) ++ sent
            /\ sent <> []
            /\ Forall (fun c => c = EaseTo o) sent)
      /\ (5 <= getZoom (engine w) -> issued (engine w4) = issued (engine w))).
Proof.
  intros w o Hc.
  assert (Hcons : consistent w) by apply run_consistent, mount_consistent.
  assert (Hl : listeners (engine w) = rotation_listeners i).
  { destruct Hcons as [_ H]. rewrite Hc in H. apply H. }
  destruct (fire_registered i w Hl) as [Edown [Eup [Edrag [Epitch [Erot _]]]]].
  assert (G : forall w0 : World,
            userInteracting w0 i = false ->
            getZoom (engine w0) = getZoom (engine w) ->
            getCenter (engine w0) = getCenter (engine w) ->
            issued (engine w0) = issued (engine w) ->
            userInteracting (spinGlobe i w0) i = false
            /\ (getZoom (engine w) < 5 ->
                exists sent,
                  issued (engine (spinGlobe i w0)) = issued (engine w) ++ sent
                  /\ sent <> []
                  /\ Forall (fun c => c = EaseTo o) sent)
            /\ (5 <= getZoom (engine w) ->
                issued (engine (spinGlobe i w0)) = issued (engine w))).
  { intros w0 Hu0 Ez Ec Ei.
    destruct (spinGlobe_frame i w0) as [_ [_ [Fu _]]].
    destruct (spinGlobe_threshold i w0 Hu0) as [Hge _].
    pose proof (spinGlobe_spinning i w0 Hu0) as Hlt.
    rewrite Ez in Hge, Hlt. rewrite Ec in Hlt. fold o in Hlt.
    split; [now rewrite Fu|]. split.
    - intros Hz. exists [EaseTo o]. rewrite (Hlt Hz). simpl. rewrite Ei.
      split; [reflexivity|]. split; [discriminate|]. now constructor.
    - intros Hz. now rewrite (Hge Hz). }
  split; [|split; [|split]].
  - simpl. rewrite Edown. unfold pause. simpl. now rewrite Nat.eqb_refl.
  - intros Hu quiet Hq.
    destruct (paused_stays_paused i quiet w Hc Hl Hu Hq) as [A [_ B]]. auto.
  - intros t Ht.
    assert (E : step w (MapEvent t) = resume i w).
    { simpl in Ht. destruct Ht as [<-|[<-|[<-|[<-|[]]]]]; assumption. }
    cbv zeta. rewrite E. unfold resume.
    apply G; try reflexivity. simpl. now rewrite Nat.eqb_refl.
  - intros Hu. cbv zeta.
    assert (E : step w (MapEvent moveend)
                = spinGlobe i (with_engine end_animation w)).
    { simpl. destruct (fire_registered i (with_engine end_animation w) Hl)
        as [_ [_ [_ [_ [_ E]]]]]. exact E. }
    rewrite E. apply G; try reflexivity. exact Hu.
Qed.

Lemma pause_on_pointer_down_resume_on_release_witness :
  let w := run [OnLoad] (mount false true) in
  let paused := run [OnLoad; MapEvent mousedown] (mount false true) in
  rotation_cleanup w = Some 0%nat
  /\ userInteracting w 0%nat = false
  /\ userInteracting paused 0%nat = true
  /\ rotation_steps (issued (engine (run [MapEvent moveend; MapEvent moveend] paused)))
     = rotation_steps (issued (engine paused))
  /\ userInteracting (step paused (MapEvent mouseup)) 0%nat = false
  /\ exists o sent,
       issued (engine (step paused (MapEvent mouseup)))
       = issued (engine paused) ++ sent
       /\ sent <> []
       /\ Forall (fun c => c = EaseTo o) sent.
Proof.
  intros w paused.
  pose proof (pause_on_pointer_down_resume_on_release false true [OnLoad] 0 eq_refl)
    as [[Hdown _] _].
  pose proof (pause_on_pointer_down_resume_on_release false true
                [OnLoad; MapEvent mousedown] 0 eq_refl)
    as [_ [Hquiet [Hrelease _]]].
  split; [reflexivity|]. split; [reflexivity|]. split; [exact Hdown|].
  split; [apply (Hquiet eq_refl [MapEvent moveend; MapEvent moveend] eq_refl)|].
  destruct (Hrelease mouseup (or_introl eq_refl)) as [Hu [Hlt _]].
  split; [exact Hu|]. eexists. apply Hlt. reflexivity.
Defined.

(** * Further properties *)

(** ** The session across events *)

(** What an event can do to the session: nothing, record the load, or
    run one of the three handlers, each only while its control is
    rendered. *)
Lemma step_session_cases (w : World) (ev : Event) :
  let s := session w in
  let s' := session (step w ev) in
  s' = s
  \/ s' = setMapLoaded true s
  \/ (exists e, scroll_panel_rendered s = true /\ s' = handleStepEnter e s)
  \/ (toggle_rendered s = true /\ s' = toggleFreeMode s)
  \/ (exists c, picker_rendered s = true /\ s' = selectChapter c s).
Proof.
  destruct ev as [b| |e| |c|t|z ctr]; simpl.
  - now left.
  - right. left. now rewrite session_update.
  - destruct (scroll_panel_rendered (session w)) eqn:E; [|now left].
    right. right. left. exists e. now rewrite session_update.
  - destruct (toggle_rendered (session w)) eqn:E; [|now left].
    right. right. right. left. now rewrite session_update.
  - destruct (picker_rendered (session w)) eqn:E; [|now left].
    right. right. right. right. exists c. now rewrite session_update.
  - left. destruct t.
    + apply (fire_frame mousedown w).
    + apply (fire_frame mouseup w).
    + apply (fire_frame dragend w).
    + apply (fire_frame pitchend w).
    + apply (fire_frame rotateend w).
    + apply (fire_frame moveend (with_engine end_animation w)).
  - now left.
Qed.

Lemma mount_session (mobile ref : bool) :
  session (mount mobile ref)
  = {| activeLayer := LAYERS_0; visibleId := None; freeMode := mobile;
       isMobile := mobile; mapLoaded := false |}.
Proof. now destruct mobile, ref. Qed.

Lemma step_session_invariant (mobile : bool) (w : World) (ev : Event) :
  session_invariant mobile (session w) ->
  session_invariant mobile (session (step w ev)).
Proof.
  intros [Hm [Hf [Hin Hv]]].
  destruct (step_session_cases w ev) as [E|[E|[[e [R E]]|[[R E]|[c [R E]]]]]];
    simpl in E; rewrite E; clear E.
  - repeat split; assumption.
  - repeat split; assumption.
  - unfold scroll_panel_rendered in R. apply Bool.andb_true_iff in R.
    destruct R as [Rf Rm]. apply Bool.negb_true_iff in Rf.
    unfold handleStepEnter. rewrite Rf.
    destruct (find_layer (data_id (data e))) as [l|] eqn:El.
    + apply find_layer_Some in El. destruct El as [Hl Hid].
      split; [exact Hm|]. split; [intros M; specialize (Hf M); simpl; congruence|].
      split; [exact Hl|]. right. exists l. split; [exact Hl|]. simpl. now rewrite Hid.
    + repeat split; assumption.
  - unfold toggle_rendered in R. apply Bool.negb_true_iff in R.
    split; [exact Hm|]. split; [intros M; congruence|]. split; assumption.
  - rewrite selectChapter_find.
    destruct (find_layer c) as [l|] eqn:El; [|repeat split; assumption].
    apply find_layer_Some in El. destruct El as [Hl _].
    repeat split; assumption.
Qed.

Lemma run_session_invariant (mobile : bool) (evs : list Event) (w : World) :
  session_invariant mobile (session w) ->
  session_invariant mobile (session (run evs w)).
Proof.
  revert w. induction evs as [|ev tl IH]; intros w H; simpl; [exact H|].
  apply IH, step_session_invariant, H.
Qed.

Lemma reachable_session_invariant (mobile ref : bool) (evs : list Event) :
  session_invariant mobile (session (run evs (mount mobile ref))).
Proof.
  apply run_session_invariant. rewrite mount_session.
  split; [reflexivity|]. split; [auto|]. split; [simpl; auto|]. now left.
Qed.

(** ** Device detection *)

Lemma matches_here_spec (p s : string) :
  matches_here p s = true
  <-> exists m suf, s = (m ++ suf)%string /\ fold_case m = fold_case p.
Proof.
  revert s. induction p as [|a p IH]; intros s; simpl.
  - split; [|reflexivity]. intros _. exists EmptyString, s. split; reflexivity.
  - destruct s as [|c s].
    + split; [discriminate|]. intros [m [suf [E F]]].
      destruct m; simpl in *; discriminate.
    + rewrite Bool.andb_true_iff, Ascii.eqb_eq, IH. split.
      * intros [Ec [m [suf [E F]]]]. exists (String c m), suf. simpl.
        split; [now rewrite E|]. now rewrite F, Ec.
      * intros [m [suf [E F]]]. destruct m as [|c' m]; simpl in *; [discriminate|].
        injection E as -> E. injection F as F1 F2.
        split; [now symmetry|]. now exists m, suf.
Qed.

Lemma matches_somewhere_spec (p s : string) :
  matches_somewhere p s = true
  <-> exists pre m suf, s = (pre ++ m ++ suf)%string /\ fold_case m = fold_case p.
Proof.
  induction s as [|c s IH]; simpl.
  - rewrite Bool.orb_false_r, matches_here_spec. split.
    + intros [m [suf [E F]]]. now exists EmptyString, m, suf.
    + intros [pre [m [suf [E F]]]]. destruct pre; simpl in E; [|discriminate].
      now exists m, suf.
  - rewrite Bool.orb_true_iff, matches_here_spec, IH. split.
    + intros [[m [suf [E F]]]|[pre [m [suf [E F]]]]].
      * now exists EmptyString, m, suf.
      * exists (String c pre), m, suf. simpl. now rewrite E.
    + intros [pre [m [suf [E F]]]]. destruct pre as [|c' pre]; simpl in E.
      * left. now exists m, suf.
      * right. injection E as -> E. now exists pre, m, suf.
Qed.

(** X1. The device test succeeds exactly on the user-agent strings that
    contain, anywhere, the letters of "Mobi" or of "Android" in any mix of
    upper and lower case; in particular it fails on the empty string. *)
Theorem detection_is_caseless_substring (userAgent : string) :
  (test_Mobi_Android userAgent = true
   <-> exists pre m suf,
         userAgent = (pre ++ m ++ suf)%string
         /\ (fold_case m = "MOBI" \/ fold_case m = "ANDROID"))
  /\ test_Mobi_Android "" = false.
Proof.
  split; [|reflexivity].
  unfold test_Mobi_Android.
  rewrite Bool.orb_true_iff, !matches_somewhere_spec. split.
  - intros [[pre [m [suf [E F]]]]|[pre [m [suf [E F]]]]];
      exists pre, m, suf; (split; [exact E|]); [left|right]; exact F.
  - intros [pre [m [suf [E [F|F]]]]]; [left|right]; now exists pre, m, suf.
Qed.

(** X2. The detection outcome is fixed at mount: after any sequence of
    events [isMobile] is still the outcome of the test on the user agent;
    and on a device detected as mobile, free mode is on at mount and can
    never be left, so the session stays in free mode with no toggle
    button and no scroll panel on screen. *)
Theorem mobile_stays_in_free_mode (userAgent : string) (ref : bool)
    (evs : list Event) :
  let s := session (run evs (mount_in userAgent ref)) in
  isMobile s = test_Mobi_Android userAgent
  /\ (test_Mobi_Android userAgent = true ->
      freeMode s = true
      /\ flat_map toggles_of (render_controls s) = []
      /\ filter is_panel (render_controls s) = []
      /\ scroll_panel_rendered s = false
      /\ toggle_rendered s = false).
Proof.
  intros s.
  destruct (reachable_session_invariant (test_Mobi_Android userAgent) ref evs)
    as [Hm [Hf _]].
  fold (mount_in userAgent ref) in Hm, Hf. fold s in Hm, Hf.
  split; [exact Hm|]. intros T. rewrite T in Hm. specialize (Hf T).
  unfold render_controls, scroll_panel_rendered, toggle_rendered.
  rewrite Hm, Hf. simpl. auto.
Qed.

Lemma mobile_stays_in_free_mode_witness :
  let ua := "Mozilla/5.0 (Linux; ANDROID 14) Safari" in
  let s := session (run [ToggleClick; OnLoad] (mount_in ua true)) in
  test_Mobi_Android ua = true /\ freeMode s = true
  /\ flat_map toggles_of (render_controls s) = [].
Proof.
  intros ua s.
  destruct (mobile_stays_in_free_mode ua true [ToggleClick; OnLoad]) as [_ H].
  destruct (H eq_refl) as [H1 [H2 _]].
  split; [reflexivity|]. split; assumption.
Defined.

(** ** The controls on screen *)

Lemma render_item_highlighted (s : Session) (l : LayerDef) :
  highlighted (render_item s l) = String.eqb (id (activeLayer s)) (id l).
Proof.
  unfold highlighted, render_item. simpl.
  now destruct (String.eqb (id (activeLayer s)) (id l)).
Qed.

Lemma render_step_faded_in (s : Session) (l : LayerDef) :
  faded_in (render_step s l)
  = match visibleId s with Some v => String.eqb v (id l) | None => false end.
Proof.
  unfold faded_in, render_step. simpl.
  now destruct (match visibleId s with Some v => String.eqb v (id l) | None => false end).
Qed.

Lemma filter_map_commute {A B} (f : A -> B) (p : B -> bool) (l : list A) :
  filter p (map f l) = map f (filter (fun x => p (f x)) l).
Proof.
  induction l as [|x tl IH]; simpl; [reflexivity|].
  destruct (p (f x)); simpl; now rewrite IH.
Qed.

(** In a list of chapters with distinct ids, the id of a member selects
    that member and no other. *)
Lemma filter_by_id (L : list LayerDef) (a : LayerDef) :
  NoDup (map id L) -> In a L ->
  filter (fun l => String.eqb (id a) (id l)) L = [a].
Proof.
  induction L as [|x tl IH]; simpl; intros Hnd Hin; [contradiction|].
  inversion Hnd as [|? ? Hx Htl]; subst.
  destruct Hin as [->|Hin].
  - rewrite String.eqb_refl. f_equal.
    clear IH Hnd Htl. induction tl as [|y tl IH]; simpl; [reflexivity|].
    destruct (String.eqb_spec (id a) (id y)) as [E|N].
    + exfalso. apply Hx. simpl. left. now symmetry.
    + apply IH. intros H. apply Hx. now right.
  - destruct (String.eqb_spec (id a) (id x)) as [E|N].
    + exfalso. apply Hx. rewrite <- E. now apply in_map.
    + now apply IH.
Qed.

(** X3. In every reachable state exactly one means of navigation is on
    screen: the scroll panel in story mode, the chapter picker in free
    mode.  On a desktop exactly one toggle button is on screen, labelled
    "Story mode" in free mode and "Explore freely" in story mode; on a
    mobile device there is none. *)
Theorem one_navigation_one_toggle (mobile ref : bool) (evs : list Event) :
  let s := session (run evs (mount mobile ref)) in
  List.length (filter (fun c => is_panel c || is_picker c) (render_controls s)) = 1%nat
  /\ existsb is_panel (render_controls s) = negb (freeMode s)
  /\ existsb is_picker (render_controls s) = freeMode s
  /\ flat_map toggles_of (render_controls s)
     = if mobile then []
       else [if freeMode s then "Story mode" else "Explore freely"].
Proof.
  intros s.
  destruct (reachable_session_invariant mobile ref evs) as [Hm [Hf _]].
  fold s in Hm, Hf. unfold render_controls, toggle_label. rewrite Hm.
  destruct mobile.
  - rewrite (Hf eq_refl). simpl. auto.
  - destruct (freeMode s); simpl; auto.
Qed.

(** X4. In every reachable state the chapter picker highlights exactly
    one entry, the entry of the active chapter; and the scroll panel has
    faded in no step before the first scroll notification took effect, and
    exactly one step afterwards, the one whose id is [visibleId]. *)
Theorem one_highlight (mobile ref : bool) (evs : list Event) :
  let s := session (run evs (mount mobile ref)) in
  filter highlighted (map (render_item s) LAYERS) = [render_item s (activeLayer s)]
  /\ match visibleId s with
     | None => filter faded_in (map (render_step s) LAYERS) = []
     | Some v =>
         exists l, In l LAYERS /\ id l = v
                   /\ filter faded_in (map (render_step s) LAYERS) = [render_step s l]
     end.
Proof.
  intros s.
  destruct (reachable_session_invariant mobile ref evs) as [_ [_ [Hin Hv]]].
  fold s in Hin, Hv. split.
  - rewrite filter_map_commute.
    rewrite (filter_ext _ (fun l => String.eqb (id (activeLayer s)) (id l)))
      by (intros l; apply render_item_highlighted).
    now rewrite (filter_by_id LAYERS (activeLayer s) LAYERS_NoDup Hin).
  - destruct Hv as [E|[l [Hl E]]]; rewrite E.
    + rewrite filter_map_commute.
      rewrite (filter_ext _ (fun _ => false))
        by (intros l; rewrite render_step_faded_in; now rewrite E).
      reflexivity.
    + exists l. split; [exact Hl|]. split; [reflexivity|].
      rewrite filter_map_commute.
      rewrite (filter_ext _ (fun x => String.eqb (id l) (id x)))
        by (intros x; rewrite render_step_faded_in; now rewrite E).
      now rewrite (filter_by_id LAYERS l LAYERS_NoDup Hl).
Qed.

(** Looking a catalog chapter up by its id finds that chapter. *)
Lemma find_layer_of_member (l : LayerDef) :
  In l LAYERS -> find_layer (id l) = Some l.
Proof.
  intros Hl. destruct (find_layer (id l)) as [l'|] eqn:E.
  - apply find_layer_Some in E. destruct E as [Hl' Hid].
    f_equal. now apply catalog_id_inj.
  - exfalso. unfold find_layer in E.
    apply (find_none _ _ E) in Hl. now rewrite String.eqb_refl in Hl.
Qed.

(** What the scroll panel and the chapter picker hold when they are on
    screen. *)
Lemma rendered_panel (s : Session) (tg : option string) (steps : list StepView) :
  In (ScrollPanel tg steps) (render_controls s) ->
  freeMode s = false /\ steps = map (render_step s) LAYERS.
Proof.
  unfold render_controls.
  destruct (freeMode s), (isMobile s); cbn [andb negb app In];
    intros H; repeat (destruct H as [H|H]; try discriminate H);
    try contradiction.
  injection H as _ <-. now split.
Qed.

Lemma rendered_picker (s : Session) (items : list PickerItem) :
  In (ChapterPicker items) (render_controls s) ->
  freeMode s = true /\ items = map (render_item s) LAYERS.
Proof.
  unfold render_controls.
  destruct (freeMode s), (isMobile s); cbn [andb negb app In];
    intros H; repeat (destruct H as [H|H]; try discriminate H);
    try contradiction; injection H as <-; now split.
Qed.

(** X5. What is on screen leads where it says.  The scroll notification
    carrying the payload of a step of the scroll panel on screen (story
    mode) makes the chapter named in that step's heading the active one
    and fades in that step and no other.  A click on an entry of the
    chapter picker on screen (free mode), which is what [selectChapter]
    does for the entry's key, makes the chapter named on the entry the
    active one and highlights that entry and no other. *)
Theorem controls_lead_to_their_chapter (s : Session) (e : StepEnterEvent)
    (tg : option string) (steps : list StepView) (v : StepView)
    (items : list PickerItem) (it : PickerItem) :
  (In (ScrollPanel tg steps) (render_controls s) ->
   In v steps ->
   data e = step_data v ->
   let s' := handleStepEnter e s in
   name (activeLayer s') = heading v
   /\ id (activeLayer s') = step_key v
   /\ visibleId s' = Some (step_key v)
   /\ filter faded_in (map (render_step s') LAYERS) = [render_step s' (activeLayer s')])
  /\ (In (ChapterPicker items) (render_controls s) ->
      In it items ->
      let s' := onClick it s in
      s' = selectChapter (item_key it) s
      /\ name (activeLayer s') = item_label it
      /\ id (activeLayer s') = item_key it
      /\ filter highlighted (map (render_item s') LAYERS)
         = [render_item s' (activeLayer s')]).
Proof.
  split.
  - intros Hp Hv He.
    destruct (rendered_panel s tg steps Hp) as [Hf ->].
    apply in_map_iff in Hv. destruct Hv as [l [<- Hl]].
    assert (Es : handleStepEnter e s
                 = setVisibleId (Some (id l)) (setActiveLayer l s)).
    { unfold handleStepEnter. rewrite Hf, He.
      change (data_id (step_data (render_step s l))) with (id l).
      now rewrite (find_layer_of_member l Hl). }
    rewrite Es. cbv zeta.
    do 3 (split; [reflexivity|]).
    change (activeLayer (setVisibleId (Some (id l)) (setActiveLayer l s))) with l.
    rewrite filter_map_commute.
    rewrite (filter_ext _ (fun x => String.eqb (id l) (id x)))
      by (intros x; now rewrite render_step_faded_in).
    now rewrite (filter_by_id LAYERS l LAYERS_NoDup Hl).
  - intros Hp Hit.
    destruct (rendered_picker s items Hp) as [_ ->].
    apply in_map_iff in Hit. destruct Hit as [k [<- Hk]].
    change (onClick (render_item s k) s) with (setActiveLayer k s).
    change (item_key (render_item s k)) with (id k).
    cbv zeta. split.
    + now rewrite selectChapter_find, (find_layer_of_member k Hk).
    + do 2 (split; [reflexivity|]).
      change (activeLayer (setActiveLayer k s)) with k.
      rewrite filter_map_commute.
      rewrite (filter_ext _ (fun x => String.eqb (id k) (id x)))
        by (intros x; now rewrite render_item_highlighted).
      now rewrite (filter_by_id LAYERS k LAYERS_NoDup Hk).
Qed.

Lemma controls_lead_to_their_chapter_witness :
  let story := initial_session in
  let free := toggleFreeMode initial_session in
  let l := nth 3 LAYERS LAYERS_0 in
  let e := {| data := {| data_id := "days-above-90f" |}; direction := down;
              entry := {| isIntersecting := true; intersectionRatio := 1 |};
              index := 3%Z |} in
  In (ScrollPanel (Some "Explore freely") (map (render_step story) LAYERS))
     (render_controls story)
  /\ name (activeLayer (handleStepEnter e story)) = "Days above 90°F (CMIP6 SSP245)"
  /\ In (ChapterPicker (map (render_item free) LAYERS)) (render_controls free)
  /\ name (activeLayer (onClick (render_item free l) free))
     = "Days above 90°F (CMIP6 SSP245)".
Proof.
  intros story free l e.
  assert (Hp : In (ScrollPanel (Some "Explore freely")
                     (map (render_step story) LAYERS))
                  (render_controls story)) by (left; reflexivity).
  assert (Hv : In (render_step story l) (map (render_step story) LAYERS))
    by (apply in_map; simpl; auto 10).
  assert (Hq : In (ChapterPicker (map (render_item free) LAYERS))
                  (render_controls free)) by (right; left; reflexivity).
  assert (Hit : In (render_item free l) (map (render_item free) LAYERS))
    by (apply in_map; simpl; auto 10).
  destruct (controls_lead_to_their_chapter story e (Some "Explore freely")
              (map (render_step story) LAYERS) (render_step story l)
              [] (render_item story l)) as [H1 _].
  destruct (controls_lead_to_their_chapter free e None [] (render_step free l)
              (map (render_item free) LAYERS) (render_item free l)) as [_ H2].
  split; [exact Hp|]. split; [apply (H1 Hp Hv eq_refl)|].
  split; [exact Hq|]. apply (H2 Hq Hit).
Defined.

(** ** The commands sent to the map *)

(** A call of [spinGlobe] does nothing or is one call of [map.easeTo]
    with the options of a rotation step from the current centre. *)
Lemma spinGlobe_shape (i : nat) (w : World) :
  spinGlobe i w = w
  \/ exists d,
       spinGlobe i w
       = with_engine (map_easeTo (westward (getCenter (engine w)) d)) w.
Proof.
  unfold spinGlobe.
  destruct (negb spinEnabled || userInteracting w i); [now left|].
  destruct (Qge_bool (getZoom (engine w)) maxSpinZoom); [now left|].
  right. eexists. reflexivity.
Qed.

Lemma grows_refl (w : World) : grows_without_flyTo w w.
Proof. exists []. rewrite app_nil_r. auto. Qed.

Lemma grows_trans (w1 w2 w3 : World) :
  grows_without_flyTo w1 w2 -> grows_without_flyTo w2 w3 ->
  grows_without_flyTo w1 w3.
Proof.
  intros [c1 [E1 [F1 N1]]] [c2 [E2 [F2 N2]]]. exists (c1 ++ c2).
  split; [now rewrite E2, E1, app_assoc|]. split; [now apply Forall_app|].
  unfold fly_requests in *. now rewrite filter_app, N1, N2.
Qed.

Lemma spinGlobe_grows (i : nat) (w : World) : grows_without_flyTo w (spinGlobe i w).
Proof.
  destruct (spinGlobe_shape i w) as [E|[d E]]; rewrite E.
  - apply grows_refl.
  - exists [EaseTo (westward (getCenter (engine w)) d)].
    split; [reflexivity|]. split; [|reflexivity].
    constructor; [|constructor]. simpl. auto.
Qed.

Lemma call_grows (fn : Closure) (w : World) : grows_without_flyTo w (call fn w).
Proof.
  unfold call. destruct (code_of fn).
  - exists [Stop]. split; [reflexivity|]. split; [|reflexivity].
    constructor; [exact I|constructor].
  - unfold resume.
    apply (grows_trans _ (set_userInteracting (run_of fn) false w)).
    + apply (grows_refl w).
    + apply spinGlobe_grows.
  - apply spinGlobe_grows.
Qed.

Lemma fire_grows (t : EventType) (w : World) : grows_without_flyTo w (fire t w).
Proof.
  unfold fire. generalize (listeners (engine w)) as l. intros l. revert w.
  induction l as [|x tl IH]; intros w; simpl; [apply grows_refl|].
  destruct (EventType_eqb (on_event x) t); [|apply IH].
  eapply grows_trans; [apply call_grows|apply IH].
Qed.

(** The effect body, seen from the log. *)
Lemma rotationEffect_log (w : World) :
  exists cmds,
    issued (engine (rotationEffect w)) = issued (engine w) ++ cmds
    /\ Forall expected_command cmds
    /\ fly_requests cmds = []
    /\ (id (activeLayer (session w)) <> "intro-globe" -> rotation_steps cmds = [])
    /\ (mapLoaded (session w) = false ->
        cmds = [] /\ rotation_cleanup (rotationEffect w) = None).
Proof.
  destruct (rotationEffect_cases w)
    as [[E [L|R]]|[[E [L [R N]]]|[L [R [Hid [w1 [E H1]]]]]]]; try rewrite E; simpl.
  - exists []. rewrite app_nil_r. repeat split; auto.
  - exists []. rewrite app_nil_r. repeat split; auto.
  - exists [Stop]. repeat split; auto; try congruence.
    constructor; [exact I|constructor].
  - destruct H1 as [_ [_ [_ [Hi _]]]].
    destruct (spinGlobe_grows (effect_runs w) w1) as [cmds [Ec [Fc Nc]]].
    exists cmds. rewrite Ec, Hi.
    repeat split; auto; try congruence.
Qed.

(** A re-render, seen from the log. *)
Lemma commit_log (prev : Session) (w : World) :
  In (activeLayer (session w)) LAYERS ->
  exists cmds,
    issued (engine (commit prev w)) = issued (engine w) ++ cmds
    /\ Forall expected_command cmds
    /\ (id (activeLayer prev) = id (activeLayer (session w)) -> fly_requests cmds = [])
    /\ (id (activeLayer (session w)) <> "intro-globe" -> rotation_steps cmds = [])
    /\ (mapLoaded (session w) = false -> rotation_cleanup w = None ->
        Forall (fun c => is_flyTo c = true) cmds
        /\ rotation_cleanup (commit prev w) = None).
Proof.
  intros Hin. unfold commit, same_object.
  set (w1 := match rotation_cleanup w with
             | Some i => set_cleanup None (rotationCleanup i w)
             | None => w
             end).
  assert (H1 : session w1 = session w /\ mapRef w1 = mapRef w
               /\ exists c1, issued (engine w1) = issued (engine w) ++ c1
                    /\ Forall (fun c => c = Stop) c1
                    /\ (rotation_cleanup w = None -> c1 = [] /\ w1 = w)).
  { subst w1. destruct (rotation_cleanup w); simpl; repeat split.
    - exists [Stop]. repeat split; auto; discriminate.
    - exists []. rewrite app_nil_r. auto. }
  destruct H1 as [Hs1 [Hr1 [c1 [Hi1 [Hc1 Hn1]]]]].
  assert (Fc1 : Forall expected_command c1).
  { eapply Forall_impl; [|exact Hc1]. intros c ->. exact I. }
  assert (Nf1 : fly_requests c1 = []).
  { clear -Hc1. induction Hc1 as [|c tl -> _ IH]; [reflexivity|exact IH]. }
  assert (Nr1 : rotation_steps c1 = []) by now apply rotation_steps_of_stops.
  destruct (rotationEffect_log w1) as [c2 [Hi2 [Fc2 [Nf2 [Nr2 Hl2]]]]].
  rewrite Hs1 in Nr2, Hl2.
  destruct (rotationEffect_frame w1) as [Hs2 [Hr2 _]].
  rewrite Hs1 in Hs2. rewrite Hr1 in Hr2.
  set (fly := FlyTo (flyTo_options (activeLayer (session w)))).
  assert (Ffly : expected_command fly) by (simpl; now exists (activeLayer (session w))).
  destruct (Bool.eqb (mapLoaded prev) (mapLoaded (session w))
            && String.eqb (id (activeLayer prev)) (id (activeLayer (session w))))
    eqn:Edeps;
    destruct (String.eqb_spec (id (activeLayer prev)) (id (activeLayer (session w))))
      as [Eid|Nid].
  - exists []. rewrite app_nil_r. repeat split; auto.
  - rewrite Bool.andb_false_r in Edeps. discriminate.
  - (* the load changed, the chapter did not *)
    exists (c1 ++ c2). rewrite Hi2, Hi1, app_assoc.
    split; [reflexivity|]. split; [now apply Forall_app|]. split; [|split].
    + intros _. unfold fly_requests in *. now rewrite filter_app, Nf1, Nf2.
    + intros N. unfold rotation_steps in *. now rewrite filter_app, Nr1, (Nr2 N).
    + intros L C. destruct (Hn1 C) as [-> Ew]. destruct (Hl2 L) as [-> Hc].
      split; [constructor|exact Hc].
  - (* the chapter changed *)
    unfold flyToEffect. rewrite Hr2.
    destruct (mapRef w); simpl.
    + exists (c1 ++ c2 ++ [fly]). rewrite Hs2, Hi2, Hi1, <- !app_assoc.
      split; [reflexivity|]. split.
      { apply Forall_app. split; [exact Fc1|]. apply Forall_app. split; [exact Fc2|].
        constructor; [exact Ffly|constructor]. }
      split; [intros C; contradiction|]. split.
      * intros N. unfold rotation_steps in *.
        now rewrite !filter_app, Nr1, (Nr2 N).
      * intros L C. destruct (Hn1 C) as [-> Ew]. destruct (Hl2 L) as [-> Hc].
        split; [repeat constructor|exact Hc].
    + exists (c1 ++ c2). rewrite Hi2, Hi1, app_assoc.
      split; [reflexivity|]. split; [now apply Forall_app|].
      split; [intros C; contradiction|]. split.
      * intros N. unfold rotation_steps in *. now rewrite filter_app, Nr1, (Nr2 N).
      * intros L C. destruct (Hn1 C) as [-> Ew]. destruct (Hl2 L) as [-> Hc].
        split; [constructor|exact Hc].
Qed.

Lemma update_log (f : Session -> Session) (w : World) :
  In (activeLayer (f (session w))) LAYERS ->
  exists cmds,
    issued (engine (update f w)) = issued (engine w) ++ cmds
    /\ Forall expected_command cmds
    /\ (id (activeLayer (session w)) = id (activeLayer (f (session w))) ->
        fly_requests cmds = [])
    /\ (id (activeLayer (f (session w))) <> "intro-globe" -> rotation_steps cmds = [])
    /\ (mapLoaded (f (session w)) = false -> rotation_cleanup w = None ->
        Forall (fun c => is_flyTo c = true) cmds
        /\ rotation_cleanup (update f w) = None).
Proof.
  intros Hin. unfold update.
  exact (commit_log (session w) (with_session f w) Hin).
Qed.

(** The three handlers leave [mapLoaded] alone. *)
Lemma handlers_keep_mapLoaded (s : Session) :
  (forall e, mapLoaded (handleStepEnter e s) = mapLoaded s)
  /\ mapLoaded (toggleFreeMode s) = mapLoaded s
  /\ (forall c, mapLoaded (selectChapter c s) = mapLoaded s).
Proof.
  split; [|split].
  - intros e. unfold handleStepEnter. destruct (freeMode s); [reflexivity|].
    now destruct (find_layer _).
  - reflexivity.
  - intros c. rewrite selectChapter_find. now destruct (find_layer c).
Qed.

(** One event, seen from the log. *)
Lemma step_log (w : World) (ev : Event) :
  consistent w ->
  (mapLoaded (session w) = false -> rotation_cleanup w = None) ->
  let w' := step w ev in
  exists cmds,
    issued (engine w') = issued (engine w) ++ cmds
    /\ Forall expected_command cmds
    /\ (id (activeLayer (session w')) = id (activeLayer (session w)) ->
        fly_requests cmds = [])
    /\ (id (activeLayer (session w')) <> "intro-globe" -> rotation_steps cmds = [])
    /\ (mapLoaded (session w') = false ->
        mapLoaded (session w) = false
        /\ Forall (fun c => is_flyTo c = true) cmds
        /\ rotation_cleanup w' = None).
Proof.
  intros Hc Hq.
  assert (Hnone : exists cmds : list Command,
            issued (engine w) = issued (engine w) ++ cmds
            /\ Forall expected_command cmds
            /\ (id (activeLayer (session w)) = id (activeLayer (session w)) ->
                fly_requests cmds = [])
            /\ (id (activeLayer (session w)) <> "intro-globe" -> rotation_steps cmds = [])
            /\ (mapLoaded (session w) = false ->
                mapLoaded (session w) = false
                /\ Forall (fun c => is_flyTo c = true) cmds
                /\ rotation_cleanup w = None)).
  { exists []. rewrite app_nil_r. repeat split; auto. }
  assert (Hupd : forall f,
            In (activeLayer (f (session w))) LAYERS ->
            mapLoaded (f (session w)) = mapLoaded (session w) ->
            exists cmds,
              issued (engine (update f w)) = issued (engine w) ++ cmds
              /\ Forall expected_command cmds
              /\ (id (activeLayer (session (update f w))) = id (activeLayer (session w)) ->
                  fly_requests cmds = [])
              /\ (id (activeLayer (session (update f w))) <> "intro-globe" ->
                  rotation_steps cmds = [])
              /\ (mapLoaded (session (update f w)) = false ->
                  mapLoaded (session w) = false
                  /\ Forall (fun c => is_flyTo c = true) cmds
                  /\ rotation_cleanup (update f w) = None)).
  { intros f Hin Hml. rewrite session_update.
    destruct (update_log f w Hin) as [cmds [E [F [Nf [Nr Hl]]]]].
    exists cmds. split; [exact E|]. split; [exact F|].
    split; [intros H; now apply Nf|]. split; [exact Nr|].
    intros L. rewrite Hml in L. split; [exact L|].
    apply Hl; [now rewrite Hml|now apply Hq]. }
  assert (Hfire : forall t w0,
            session w0 = session w -> rotation_cleanup w0 = rotation_cleanup w ->
            listeners (engine w0) = listeners (engine w) ->
            issued (engine w0) = issued (engine w) ->
            exists cmds,
              issued (engine (fire t w0)) = issued (engine w) ++ cmds
              /\ Forall expected_command cmds
              /\ (id (activeLayer (session (fire t w0))) = id (activeLayer (session w)) ->
                  fly_requests cmds = [])
              /\ (id (activeLayer (session (fire t w0))) <> "intro-globe" ->
                  rotation_steps cmds = [])
              /\ (mapLoaded (session (fire t w0)) = false ->
                  mapLoaded (session w) = false
                  /\ Forall (fun c => is_flyTo c = true) cmds
                  /\ rotation_cleanup (fire t w0) = None)).
  { intros t w0 Es Ec El Ei.
    destruct (fire_frame t w0) as [Fs [_ [_ [Fc _]]]].
    rewrite Fs, Fc, Es, Ec.
    destruct (fire_grows t w0) as [cmds [E [F Nf]]]. rewrite Ei in E.
    assert (Hempty : rotation_cleanup w = None -> cmds = []).
    { intros C. destruct Hc as [_ Hc]. rewrite C in Hc. destruct Hc as [Hl _].
      rewrite <- El in Hl. rewrite (fire_nobody t w0 Hl), Ei in E.
      rewrite <- (app_nil_r (issued (engine w))) in E at 1.
      apply app_inv_head in E. now symmetry. }
    exists cmds. split; [exact E|]. split; [exact F|]. split; [auto|]. split.
    - intros N. rewrite Hempty; [reflexivity|].
      destruct (consistent_outside_intro w Hc N) as [_ [C _]]. exact C.
    - intros L. split; [exact L|]. rewrite (Hempty (Hq L)). auto. }
  destruct ev as [b| |e| |c|t|z ctr]; simpl.
  - exact Hnone.
  - (* the load event *)
    destruct (update_log (setMapLoaded true) (set_mapRef true w)) as
      [cmds [E [F [Nf [Nr _]]]]]; [apply Hc|].
    exists cmds. rewrite session_update. split; [exact E|]. split; [exact F|].
    split; [intros _; now apply Nf|]. split; [exact Nr|]. discriminate.
  - destruct (scroll_panel_rendered (session w)); [|exact Hnone].
    apply Hupd; [apply handleStepEnter_in_catalog, Hc|apply handlers_keep_mapLoaded].
  - destruct (toggle_rendered (session w)); [|exact Hnone].
    apply Hupd; [apply Hc|apply handlers_keep_mapLoaded].
  - destruct (picker_rendered (session w)); [|exact Hnone].
    apply Hupd; [apply selectChapter_in_catalog, Hc|apply handlers_keep_mapLoaded].
  - destruct t; try (apply Hfire; reflexivity).
  - exact Hnone.
Qed.

(** What holds of the log and of the load flag in every reachable
    state. *)
Lemma reachable_log (mobile ref : bool) (evs : list Event) :
  let w := run evs (mount mobile ref) in
  consistent w
  /\ (mapLoaded (session w) = false -> rotation_cleanup w = None)
  /\ Forall expected_command (issued (engine w))
  /\ (mapLoaded (session w) = false ->
      Forall (fun c => is_flyTo c = true) (issued (engine w))).
Proof.
  assert (G : forall evs w,
            consistent w ->
            (mapLoaded (session w) = false -> rotation_cleanup w = None) ->
            Forall expected_command (issued (engine w)) ->
            (mapLoaded (session w) = false ->
             Forall (fun c => is_flyTo c = true) (issued (engine w))) ->
            consistent (run evs w)
            /\ (mapLoaded (session (run evs w)) = false ->
                rotation_cleanup (run evs w) = None)
            /\ Forall expected_command (issued (engine (run evs w)))
            /\ (mapLoaded (session (run evs w)) = false ->
                Forall (fun c => is_flyTo c = true) (issued (engine (run evs w))))).
  { clear evs. induction evs as [|ev tl IH]; intros w Hc Hq He Hf; simpl; [auto|].
    destruct (step_log w ev Hc Hq) as [cmds [E [F [_ [_ Hl]]]]].
    apply IH.
    - apply step_consistent, Hc.
    - intros L. apply Hl, L.
    - rewrite E. apply Forall_app. auto.
    - intros L. destruct (Hl L) as [L0 [Fl _]]. rewrite E.
      apply Forall_app. auto. }
  apply G.
  - apply mount_consistent.
  - intros _. now destruct mobile, ref.
  - destruct mobile, ref; simpl; repeat constructor;
      exists LAYERS_0; (split; [simpl; auto|reflexivity]).
  - intros _. destruct mobile, ref; simpl; repeat constructor.
Qed.

(** X6. Whatever the events, every command the map ever receives is a
    [stop], or an [easeTo] of 1000 ms with the identity easing, marked
    essential, or a fly-to to the view of a catalog chapter with pitch 20,
    bearing 0, speed 0.6 and curve 1.4. *)
Theorem only_expected_commands (mobile ref : bool) (evs : list Event) (c : Command) :
  In c (issued (engine (run evs (mount mobile ref)))) ->
  match c with
  | Stop => True
  | EaseTo o =>
      duration o = 1000 /\ essential o = true /\ (forall n, ease_easing o n = n)
  | FlyTo o =>
      pitch o = 20 /\ bearing o = 0 /\ speed o = 0.6 /\ curve o = 1.4
      /\ exists l, In l LAYERS
                   /\ fly_center o = (longitude (view l), latitude (view l))
                   /\ fly_zoom o = zoom (view l)
  end.
Proof.
  intros Hin.
  destruct (reachable_log mobile ref evs) as [_ [_ [F _]]].
  rewrite Forall_forall in F. specialize (F c Hin).
  destruct c as [|o|o]; simpl in F.
  - exact I.
  - exact F.
  - destruct F as [l [Hl ->]]. simpl.
    do 4 (split; [reflexivity|]). now exists l.
Qed.

Lemma only_expected_commands_witness :
  let w := run [OnLoad; PickerClick "finale"] (mount false true) in
  exists o, nth_error (issued (engine w)) 1 = Some (EaseTo o)
            /\ duration o = 1000 /\ essential o = true.
Proof.
  intros w.
  assert (E : exists o, nth_error (issued (engine w)) 1 = Some (EaseTo o))
    by (eexists; vm_compute; reflexivity).
  destruct E as [o E]. exists o. split; [exact E|].
  apply nth_error_In in E.
  destruct (only_expected_commands false true [OnLoad; PickerClick "finale"]
              (EaseTo o) E) as [Hd [He _]].
  split; assumption.
Defined.

(** X7. A fly-to is requested only when the active chapter changes: an
    event after which the active chapter has the id it had before (a load,
    a toggle, an engine notification, a scroll notification or a pick for
    the chapter already active) adds no fly-to to the log. *)
Theorem no_flyTo_without_chapter_change (mobile ref : bool) (evs : list Event)
    (ev : Event) :
  let w := run evs (mount mobile ref) in
  let w' := step w ev in
  id (activeLayer (session w')) = id (activeLayer (session w)) ->
  fly_requests (issued (engine w')) = fly_requests (issued (engine w)).
Proof.
  intros w w' Hid.
  destruct (reachable_log mobile ref evs) as [Hc [Hq _]].
  destruct (step_log _ ev Hc Hq) as [cmds [E [_ [Nf _]]]].
  fold w in E, Nf. fold w' in E, Nf.
  rewrite E. unfold fly_requests in *. rewrite filter_app, (Nf Hid).
  apply app_nil_r.
Qed.

Lemma no_flyTo_without_chapter_change_witness :
  let w := run [OnLoad; PickerClick "finale"] (mount true true) in
  fly_requests (issued (engine (step w (PickerClick "finale"))))
  = fly_requests (issued (engine w)).
Proof.
  intros w.
  assert (H : id (activeLayer (session (step w (PickerClick "finale"))))
              = id (activeLayer (session w))) by (vm_compute; reflexivity).
  apply (no_flyTo_without_chapter_change true true [OnLoad; PickerClick "finale"]
           (PickerClick "finale") H).
Defined.

(** X8. The globe only rotates in the intro chapter: an event after
    which another chapter is active adds no rotation step to the log, and
    in every reachable state with another chapter active no rotation step
    is under way. *)
Theorem no_rotation_outside_intro (mobile ref : bool) (evs : list Event)
    (ev : Event) :
  let w := run evs (mount mobile ref) in
  let w' := step w ev in
  id (activeLayer (session w')) <> "intro-globe" ->
  rotation_steps (issued (engine w')) = rotation_steps (issued (engine w))
  /\ forall o, animation (engine w') <> Some (EaseTo o).
Proof.
  intros w w' N.
  destruct (reachable_log mobile ref evs) as [Hc [Hq _]].
  destruct (step_log _ ev Hc Hq) as [cmds [E [_ [_ [Nr _]]]]].
  fold w in E, Nr. fold w' in E, Nr. split.
  - rewrite E. unfold rotation_steps in *. rewrite filter_app, (Nr N).
    apply app_nil_r.
  - apply (consistent_outside_intro w'); [|exact N].
    apply step_consistent, Hc.
Qed.

Lemma no_rotation_outside_intro_witness :
  let w := run [OnLoad; PickerClick "geoglam"] (mount true true) in
  rotation_steps (issued (engine (step w (MapEvent mouseup))))
  = rotation_steps (issued (engine w)).
Proof.
  intros w.
  assert (N : id (activeLayer (session (step w (MapEvent mouseup)))) <> "intro-globe")
    by (vm_compute; discriminate).
  apply (no_rotation_outside_intro true true [OnLoad; PickerClick "geoglam"]
           (MapEvent mouseup) N).
Defined.

(** X9. Until the map reports that it has loaded, the component
    registers no listener, holds no cleanup and sends the map nothing but
    fly-to requests: no [stop] and no rotation step.  While the map
    instance is not available either, no event other than the load makes
    it send anything. *)
Theorem quiet_before_load (mobile ref : bool) (evs : list Event) :
  let w := run evs (mount mobile ref) in
  mapLoaded (session w) = false ->
  listeners (engine w) = []
  /\ rotation_cleanup w = None
  /\ (forall c, In c (issued (engine w)) -> exists o, c = FlyTo o)
  /\ (mapRef w = false -> forall ev, issued (engine (step w ev)) = issued (engine w)
                                     \/ ev = OnLoad).
Proof.
  intros w L.
  destruct (reachable_log mobile ref evs) as [Hc [Hq [_ Hf]]].
  fold w in Hc, Hq, Hf.
  assert (C : rotation_cleanup w = None) by apply Hq, L.
  assert (Hl : listeners (engine w) = []).
  { destruct Hc as [_ Hc]. rewrite C in Hc. apply Hc. }
  split; [exact Hl|]. split; [exact C|]. split.
  - intros c Hin. specialize (Hf L). rewrite Forall_forall in Hf.
    specialize (Hf c Hin). destruct c; try discriminate. now eexists.
  - intros R ev.
    assert (U : forall f, mapLoaded (f (session w)) = false ->
                          issued (engine (update f w)) = issued (engine w)).
    { intros f Lf. unfold update, commit.
      change (rotation_cleanup (with_session f w)) with (rotation_cleanup w).
      rewrite C.
      assert (Er : rotationEffect (with_session f w)
                   = set_cleanup None (with_session f w)).
      { unfold rotationEffect. simpl. now rewrite Lf. }
      assert (Ef : forall w0, mapRef w0 = false -> flyToEffect w0 = w0).
      { intros w0 R0. unfold flyToEffect. now rewrite R0. }
      destruct (Bool.eqb _ _ && String.eqb _ _); destruct (same_object _ _);
        rewrite ?Er, ?Ef; try reflexivity; exact R. }
    destruct (handlers_keep_mapLoaded (session w)) as [K1 [K2 K3]].
    destruct ev as [b| |e| |c|t|z ctr]; simpl; auto.
    + destruct (scroll_panel_rendered (session w)); [|now left].
      left. apply U. now rewrite K1.
    + destruct (toggle_rendered (session w)); [|now left].
      left. apply U. now rewrite K2.
    + destruct (picker_rendered (session w)); [|now left].
      left. apply U. now rewrite K3.
    + left. destruct t; try now rewrite (fire_nobody _ w Hl).
      now rewrite (fire_nobody moveend (with_engine end_animation w) Hl).
Qed.

Lemma quiet_before_load_witness :
  let e := {| data := {| data_id := "grdi-v1" |}; direction := down;
              entry := {| isIntersecting := true; intersectionRatio := 1 |};
              index := 5%Z |} in
  let w := run [StepEnter e; MapEvent mousedown; ToggleClick] (mount false true) in
  listeners (engine w) = [] /\ List.length (issued (engine w)) = 2%nat.
Proof.
  intros e w.
  assert (L : mapLoaded (session w) = false) by (vm_compute; reflexivity).
  destruct (quiet_before_load false true
              [StepEnter e; MapEvent mousedown; ToggleClick] L) as [H _].
  split; [exact H|vm_compute; reflexivity].
Defined.

(** ** Registration and cleanup *)

Lemma rotationCleanup_listeners (i : nat) (w : World) :
  listeners (engine (rotationCleanup i w))
  = remove_first {| on_event := moveend; handler := closure i cb_spinGlobe |}
      (remove_first {| on_event := rotateend; handler := closure i cb_resume |}
         (remove_first {| on_event := pitchend; handler := closure i cb_resume |}
            (remove_first {| on_event := dragend; handler := closure i cb_resume |}
               (remove_first {| on_event := mouseup; handler := closure i cb_resume |}
                  (remove_first {| on_event := mousedown; handler := closure i cb_pause |}
                     (listeners (engine w))))))).
Proof. reflexivity. Qed.

(** Removing a listener passes over the listeners of other effect runs. *)
Lemma remove_first_passes (x : Listener) (L R : list Listener) :
  (forall l, In l L -> run_of (handler l) <> run_of (handler x)) ->
  remove_first x (L ++ x :: R) = L ++ R.
Proof.
  induction L as [|y tl IH]; intros H; simpl.
  - now rewrite Listener_eqb_refl.
  - assert (N : Listener_eqb x y = false).
    { unfold Listener_eqb, Closure_eqb.
      assert (E : Nat.eqb (run_of (handler x)) (run_of (handler y)) = false).
      { apply Nat.eqb_neq. intros E. apply (H y); [now left|now symmetry]. }
      rewrite E. simpl. apply Bool.andb_false_r. }
    rewrite N. f_equal. apply IH. intros l Hl. apply H. now right.
Qed.

(** X10. Registration and cleanup match.  When the auto-rotation effect
    runs for the intro chapter on a loaded map, it appends its six
    registrations to whatever the registry holds; and the function it
    returns, run then or after any notification of the engine, removes
    exactly those six and leaves the registrations of other runs in place
    and in order. *)
Theorem cleanup_removes_exactly_what_was_registered (w : World) (t : EventType) :
  mapLoaded (session w) = true ->
  mapRef w = true ->
  id (activeLayer (session w)) = "intro-globe" ->
  (forall l, In l (listeners (engine w)) -> run_of (handler l) <> effect_runs w) ->
  let i := effect_runs w in
  let w1 := rotationEffect w in
  rotation_cleanup w1 = Some i
  /\ listeners (engine w1) = listeners (engine w) ++ rotation_listeners i
  /\ listeners (engine (rotationCleanup i w1)) = listeners (engine w)
  /\ listeners (engine (rotationCleanup i (fire t w1))) = listeners (engine w).
Proof.
  intros L R Hid Hforeign i w1.
  destruct (rotationEffect_cases w) as [[_ [C|C]]|[[_ [_ [_ C]]]|[_ [_ [_ [w0 [E H0]]]]]]];
    try congruence.
  fold i in E, H0. destruct H0 as [_ [_ [Hl _]]].
  destruct (spinGlobe_frame i w0) as [_ [_ [_ [_ [_ [Fl _]]]]]].
  assert (E1 : listeners (engine w1) = listeners (engine w) ++ rotation_listeners i).
  { subst w1. rewrite E. simpl. now rewrite Fl, Hl. }
  assert (Hrm : forall w2, listeners (engine w2) = listeners (engine w) ++ rotation_listeners i ->
                           listeners (engine (rotationCleanup i w2)) = listeners (engine w)).
  { intros w2 E2. rewrite rotationCleanup_listeners, E2. unfold rotation_listeners.
    rewrite !remove_first_passes by (intros l Hin; simpl; now apply Hforeign).
    apply app_nil_r. }
  split; [subst w1; now rewrite E|]. split; [exact E1|]. split.
  - apply Hrm, E1.
  - apply Hrm. destruct (fire_frame t w1) as [_ [_ [_ [_ F]]]]. now rewrite F.
Qed.

Lemma cleanup_removes_exactly_what_was_registered_witness :
  let foreign := {| on_event := moveend; handler := closure 7 cb_spinGlobe |} in
  let w := with_engine (map_on moveend (closure 7 cb_spinGlobe))
             (with_session (setMapLoaded true) (mount false true)) in
  List.length (listeners (engine (rotationEffect w))) = 7%nat
  /\ listeners (engine (rotationCleanup 0 (fire mousedown (rotationEffect w))))
     = [foreign].
Proof.
  intros foreign w.
  assert (Hf : forall l, In l (listeners (engine w)) ->
                         run_of (handler l) <> effect_runs w).
  { intros l [<-|[]]. simpl. discriminate. }
  destruct (cleanup_removes_exactly_what_was_registered w mousedown
              eq_refl eq_refl eq_refl Hf) as [_ [H1 [_ H2]]].
  split; [now rewrite H1|exact H2].
Defined.

(** On an unregistered, loaded, idle component whose map is available,
    an update that makes the intro chapter active on a loaded map starts
    the rotation. *)
Lemma update_enters_intro (f : Session -> Session) (w : World) :
  rotation_cleanup w = None ->
  listeners (engine w) = [] ->
  mapRef w = true ->
  mapLoaded (f (session w)) = true ->
  id (activeLayer (f (session w))) = "intro-globe" ->
  id (activeLayer (session w)) <> "intro-globe" \/ mapLoaded (session w) = false ->
  let i := effect_runs w in
  let w' := update f w in
  rotation_cleanup w' = Some i
  /\ listeners (engine w') = rotation_listeners i
  /\ userInteracting w' i = false
  /\ effect_runs w' = S i
  /\ rotation_steps (skipn (List.length (issued (engine w))) (issued (engine w')))
     = rotation_steps
         (skipn (List.length (issued (engine w)))
            (issued (engine (spinGlobe i (set_userInteracting i false w))))).
Proof.
  intros C Hl R Lf Hid Hch i w'.
  set (w0 := with_session f w).
  assert (Edeps : Bool.eqb (mapLoaded (session w)) (mapLoaded (f (session w)))
                  && String.eqb (id (activeLayer (session w)))
                       (id (activeLayer (f (session w)))) = false).
  { destruct Hch as [N|L0].
    - rewrite Hid. apply Bool.andb_false_iff. right. now apply String.eqb_neq.
    - rewrite L0, Lf. reflexivity. }
  destruct (rotationEffect_cases w0)
    as [[_ [X|X]]|[[_ [_ [_ X]]]|[_ [_ [_ [w1 [E H1]]]]]]];
    try (simpl in X; congruence).
  change (effect_runs w0) with i in E, H1.
  destruct H1 as [Hs1 [Hr1 [Hl1 [Hi1 [Ha1 [Hz1 [Hc1 [Hu1 He1]]]]]]]].
  change (listeners (engine w0)) with (listeners (engine w)) in Hl1.
  rewrite Hl in Hl1. simpl in Hl1.
  destruct (spinGlobe_frame i w1) as [Fs [Fr [Fu [Fe [_ [Fl _]]]]]].
  assert (Espin : issued (engine (spinGlobe i w1))
                  = issued (engine (spinGlobe i (set_userInteracting i false w)))).
  { destruct (spinGlobe_threshold i w1 Hu1) as [Ge1 Lt1].
    assert (Hu2 : userInteracting (set_userInteracting i false w) i = false)
      by (simpl; now rewrite Nat.eqb_refl).
    unfold spinGlobe. rewrite Hu1, Hu2. simpl orb. cbv iota.
    rewrite Hz1, Hc1. simpl getZoom. simpl getCenter.
    destruct (Qge_bool (getZoom (engine w)) maxSpinZoom); [exact Hi1|].
    simpl. now rewrite Hi1. }
  assert (Ew : w' = (if same_object (activeLayer (session w)) (activeLayer (f (session w)))
                     then rotationEffect w0 else flyToEffect (rotationEffect w0))).
  { subst w'. unfold update, commit. fold w0.
    change (session w0) with (f (session w)).
    change (rotation_cleanup w0) with (rotation_cleanup w).
    rewrite Edeps, C. reflexivity. }
  rewrite Ew, E.
  destruct (same_object (activeLayer (session w)) (activeLayer (f (session w)))).
  - simpl. rewrite Fl, Fu, Fe, Hu1, He1, Espin. auto.
  - unfold flyToEffect. simpl. rewrite Fr, Hr1. simpl. rewrite R. simpl.
    rewrite Fl, Fu, Fe, Hu1, He1, Espin. do 4 (split; [auto|]).
    destruct (spinGlobe_frame i (set_userInteracting i false w))
      as [_ [_ [_ [_ [_ [_ [_ [_ [pre [Ep Fp]]]]]]]]]].
    simpl in Ep. rewrite Ep, <- !app_assoc.
    rewrite !skipn_app, !skipn_all, Nat.sub_diag. simpl.
    unfold rotation_steps. rewrite filter_app. simpl. now rewrite app_nil_r.
Qed.

Lemma mapRef_update (f : Session -> Session) (w : World) :
  mapRef (update f w) = mapRef w.
Proof.
  unfold update, commit.
  set (w0 := with_session f w).
  set (w1 := match rotation_cleanup w0 with
             | Some i => set_cleanup None (rotationCleanup i w0)
             | None => w0
             end).
  assert (H1 : mapRef w1 = mapRef w) by (subst w1; now destruct (rotation_cleanup w0)).
  destruct (rotationEffect_frame w1) as [_ [H2 _]].
  destruct (flyToEffect_frame (rotationEffect w1)) as [_ [H3 _]].
  destruct (flyToEffect_frame w0) as [_ [H4 _]].
  destruct (Bool.eqb _ _ && String.eqb _ _); destruct (same_object _ _);
    rewrite ?H3, ?H2, ?H4; auto.
Qed.

Lemma skipn_exact {A} (l m : list A) : skipn (List.length l) (l ++ m) = m.
Proof. now rewrite skipn_app, skipn_all, Nat.sub_diag. Qed.

Lemma skipn_incl {A} (n : nat) (l : list A) (x : A) : In x (skipn n l) -> In x l.
Proof.
  revert l. induction n as [|n IH]; intros [|y l]; simpl; auto.
Qed.

Lemma rotation_steps_sent_In (c : Command) (n : nat) (l : list Command) :
  In c (rotation_steps (skipn n l)) -> In c l.
Proof.
  unfold rotation_steps. intros H. apply filter_In in H.
  destruct H as [H _]. exact (skipn_incl n l c H).
Qed.

(** X11. Entering starts the rotation.  When an event makes the intro
    chapter active on a loaded map whose instance is available (the load
    itself while the intro chapter is active, or a change to the intro
    chapter), the effect registers exactly its six listeners, starts in the
    spinning state, and at once issues a rotation step from the current
    centre by the increment of the current zoom if the zoom is below 5,
    and no rotation step at zoom 5 or more. *)
Theorem entering_intro_starts_spinning (mobile ref : bool) (evs : list Event)
    (ev : Event) :
  let w := run evs (mount mobile ref) in
  let w' := step w ev in
  id (activeLayer (session w')) = "intro-globe" ->
  mapLoaded (session w') = true ->
  mapRef w' = true ->
  id (activeLayer (session w)) <> "intro-globe" \/ mapLoaded (session w) = false ->
  let i := effect_runs w in
  let sent := skipn (List.length (issued (engine w))) (issued (engine w')) in
  rotation_cleanup w' = Some i
  /\ listeners (engine w') = rotation_listeners i
  /\ userInteracting w' i = false
  /\ (getZoom (engine w) < 5 ->
      In (EaseTo (westward (getCenter (engine w))
                           (spin_increment (getZoom (engine w)))))
         (rotation_steps sent))
  /\ (5 <= getZoom (engine w) -> rotation_steps sent = []).
Proof.
  intros w w' Hid Hl Hr Hch i sent.
  destruct (reachable_log mobile ref evs) as [Hc [Hq _]]. fold w in Hc, Hq.
  assert (C : rotation_cleanup w = None /\ listeners (engine w) = []).
  { destruct Hch as [N|L0].
    - destruct (consistent_outside_intro w Hc N) as [A [B _]]. auto.
    - specialize (Hq L0). destruct Hc as [_ Hc]. rewrite Hq in Hc. split; [exact Hq|apply Hc]. }
  destruct C as [C Hls].
  assert (Hsame : session w' = session w -> False).
  { intros E. rewrite E in Hid, Hl. destruct Hch; congruence. }
  assert (G : forall (f : Session -> Session) (w0 : World),
            w' = update f w0 -> session w0 = session w ->
            rotation_cleanup w0 = None -> listeners (engine w0) = [] ->
            mapRef w0 = true -> effect_runs w0 = i ->
            issued (engine w0) = issued (engine w) ->
            getZoom (engine w0) = getZoom (engine w) ->
            getCenter (engine w0) = getCenter (engine w) ->
            rotation_cleanup w' = Some i
            /\ listeners (engine w') = rotation_listeners i
            /\ userInteracting w' i = false
            /\ (getZoom (engine w) < 5 ->
                In (EaseTo (westward (getCenter (engine w))
                                     (spin_increment (getZoom (engine w)))))
                   (rotation_steps sent))
            /\ (5 <= getZoom (engine w) -> rotation_steps sent = [])).
  { intros f w0 Ew Es C0 L0 R0 Ee Ei Ez Ec.
    assert (Hs' : session w' = f (session w0)) by (rewrite Ew; apply session_update).
    rewrite Hs' in Hid, Hl.
    assert (Hch0 : id (activeLayer (session w0)) <> "intro-globe"
                   \/ mapLoaded (session w0) = false) by now rewrite Es.
    destruct (update_enters_intro f w0 C0 L0 R0 Hl Hid Hch0) as [A [B [U [_ S]]]].
    rewrite Ee in A, B, U, S. rewrite <- Ew in A, B, U, S. rewrite Ei in S.
    fold sent in S.
    do 3 (split; [assumption|]).
    set (w2 := set_userInteracting i false w0) in *.
    assert (Hu2 : userInteracting w2 i = false) by (simpl; now rewrite Nat.eqb_refl).
    destruct (spinGlobe_threshold i w2 Hu2) as [Ge _].
    pose proof (spinGlobe_spinning i w2 Hu2) as Lt.
    change (getZoom (engine w2)) with (getZoom (engine w0)) in Ge, Lt.
    change (getCenter (engine w2)) with (getCenter (engine w0)) in Lt.
    rewrite Ez in Ge, Lt. rewrite Ec in Lt. split.
    - intros Z. rewrite S, (Lt Z). simpl.
      change (issued (engine w2)) with (issued (engine w0)).
      rewrite Ei, skipn_exact. now left.
    - intros Z. rewrite S, (Ge Z).
      change (issued (engine w2)) with (issued (engine w0)).
      rewrite Ei. rewrite <- (app_nil_r (issued (engine w))) at 2.
      now rewrite skipn_exact. }
  subst w'. destruct ev as [b| |e| |c|t|z ctr]; simpl in *.
  - exfalso. now apply Hsame.
  - apply (G (setMapLoaded true) (set_mapRef true w)); auto.
  - destruct (scroll_panel_rendered (session w)); [|exfalso; now apply Hsame].
    rewrite mapRef_update in Hr. apply (G (handleStepEnter e) w); auto.
  - destruct (toggle_rendered (session w)); [|exfalso; now apply Hsame].
    rewrite mapRef_update in Hr. apply (G toggleFreeMode w); auto.
  - destruct (picker_rendered (session w)); [|exfalso; now apply Hsame].
    rewrite mapRef_update in Hr. apply (G (selectChapter c) w); auto.
  - exfalso. apply Hsame. destruct t.
    + apply (fire_frame mousedown w).
    + apply (fire_frame mouseup w).
    + apply (fire_frame dragend w).
    + apply (fire_frame pitchend w).
    + apply (fire_frame rotateend w).
    + apply (fire_frame moveend (with_engine end_animation w)).
  - exfalso. now apply Hsame.
Qed.

Lemma entering_intro_starts_spinning_witness :
  let w := run [OnLoad; PickerClick "finale"] (mount true true) in
  let w' := step w (PickerClick "intro-globe") in
  rotation_cleanup w' = Some 1%nat
  /\ List.length (listeners (engine w')) = 6%nat
  /\ exists o, In (EaseTo o) (issued (engine w')).
Proof.
  intros w w'.
  assert (H1 : id (activeLayer (session w')) = "intro-globe") by (vm_compute; reflexivity).
  assert (H2 : mapLoaded (session w') = true) by (vm_compute; reflexivity).
  assert (H3 : mapRef w' = true) by (vm_compute; reflexivity).
  assert (H4 : id (activeLayer (session w)) <> "intro-globe" \/ mapLoaded (session w) = false)
    by (left; vm_compute; discriminate).
  destruct (entering_intro_starts_spinning true true [OnLoad; PickerClick "finale"]
              (PickerClick "intro-globe") H1 H2 H3 H4) as [A [B [_ [D _]]]].
  split; [exact A|]. split; [exact (f_equal (@List.length Listener) B)|].
  assert (Z : getZoom (engine w) < 5) by (vm_compute; reflexivity).
  exists (westward (getCenter (engine w)) (spin_increment (getZoom (engine w)))).
  apply (rotation_steps_sent_In _ (List.length (issued (engine w)))
           (issued (engine w'))).
  exact (D Z).
Defined.

(** ** The rotation rate *)

(** X12. The rotation never turns east and slows down as the camera is
    zoomed in.  A spinning call of [spinGlobe] below zoom 5 subtracts from
    the longitude an increment that depends on the zoom alone: more than 0
    and at most 3 degrees, 3 up to zoom 3, and of two such calls the one
    at the larger zoom subtracts no more than the other; the longitude it
    targets is never east of the current one.  In particular the clamp
    [Math.max(0, zoomFactor)] never takes effect. *)
Theorem rotation_slows_with_zoom (i j : nat) (w1 w2 : World) :
  let z1 := getZoom (engine w1) in
  let z2 := getZoom (engine w2) in
  let c1 := getCenter (engine w1) in
  let c2 := getCenter (engine w2) in
  userInteracting w1 i = false ->
  userInteracting w2 j = false ->
  binary64 z1 -> binary64 z2 ->
  z1 <= z2 -> z2 < 5 ->
  spinGlobe i w1 = with_engine (map_easeTo (westward c1 (spin_increment z1))) w1
  /\ spinGlobe j w2 = with_engine (map_easeTo (westward c2 (spin_increment z2))) w2
  /\ spin_increment z2 <= spin_increment z1
  /\ 0 < spin_increment z2
  /\ spin_increment z1 <= 3
  /\ (z1 <= 3 -> spin_increment z1 == 3)
  /\ (binary64 (lng c1) -> lng (ease_center (westward c1 (spin_increment z1))) <= lng c1)
  /\ (binary64 (lng c2) -> lng (ease_center (westward c2 (spin_increment z2))) <= lng c2).
Proof.
  intros z1 z2 c1 c2 H1 H2 B1 B2 Hz H5.
  assert (H5' : z1 < 5) by lra.
  destruct (spin_increment_by_zoom z1) as [S1 F1].
  destruct (spin_increment_by_zoom z2) as [S2 F2].
  assert (R1 : 0 < spin_increment z1 /\ spin_increment z1 <= 3).
  { destruct (Qlt_le_dec 3 z1) as [G3|L3].
    - destruct (F1 B1 G3 H5') as [_ [A B]]. split; [exact A|lra].
    - rewrite (S1 L3). split; lra. }
  assert (R2 : 0 < spin_increment z2 /\ spin_increment z2 <= 3).
  { destruct (Qlt_le_dec 3 z2) as [G3|L3].
    - destruct (F2 B2 G3 H5) as [_ [A B]]. split; [exact A|lra].
    - rewrite (S2 L3). split; lra. }
  split; [now apply spinGlobe_spinning|].
  split; [now apply spinGlobe_spinning|].
  split; [|split; [apply R2|split; [apply R1|split; [exact S1|split]]]].
  - destruct (Qlt_le_dec 3 z2) as [G3|L3].
    + destruct (F2 B2 G3 H5) as [E2 [_ U2]].
      destruct (Qlt_le_dec 3 z1) as [G3'|L3'].
      * destruct (F1 B1 G3' H5') as [E1 _]. rewrite E1, E2.
        apply fl_monotone.
        assert (Q1 : (5 - z1) / (5 - 3) == (5 - z1) * (1 # 2)) by reflexivity.
        assert (Q2 : (5 - z2) / (5 - 3) == (5 - z2) * (1 # 2)) by reflexivity.
        rewrite Q1, Q2. lra.
      * rewrite (S1 L3'). lra.
    + assert (L3' : z1 <= 3) by lra. rewrite (S1 L3'), (S2 L3). lra.
  - intros Bc. apply westward_not_east; [exact Bc|lra].
  - intros Bc. apply westward_not_east; [exact Bc|lra].
Qed.

Lemma rotation_slows_with_zoom_witness :
  let w1 := with_engine (move_camera 3.5 {| lng := 0; lat := 0 |}) (mount false false) in
  let w2 := with_engine (move_camera 4.5 {| lng := 0; lat := 0 |}) (mount false false) in
  spin_increment 4.5 <= spin_increment 3.5 /\ 0 < spin_increment 4.5.
Proof.
  intros w1 w2.
  assert (B1 : binary64 (getZoom (engine w1))) by (vm_compute; reflexivity).
  assert (B2 : binary64 (getZoom (engine w2))) by (vm_compute; reflexivity).
  assert (Hz : getZoom (engine w1) <= getZoom (engine w2))
    by (vm_compute; discriminate).
  assert (H5 : getZoom (engine w2) < 5) by (vm_compute; reflexivity).
  destruct (rotation_slows_with_zoom 0 0 w1 w2 eq_refl eq_refl B1 B2 Hz H5)
    as [_ [_ [A [B _]]]].
  split; [exact A|exact B].
Defined.

(** Away from the whole numbers the steps round: from longitude -3.1,
    one step west and 3 degrees back east do not return to -3.1. *)
Example steps_round_off_the_integers :
  let x := fl (- (31 # 10)) in
  js_sub x (spin_increment 2) == - (3433994715870003 # 562949953421312)
  /\ ~ fl (js_sub x (spin_increment 2) + 3) == x.
Proof.
  split; [vm_compute; reflexivity|]. vm_compute. discriminate.
Qed.

(** One completed step of a spinning rotation at zoom 3 or less. *)
Lemma complete_rotation_step_slow (i : nat) (w : World) (o : EaseToOptions) :
  rotation_cleanup w = Some i ->
  listeners (engine w) = rotation_listeners i ->
  userInteracting w i = false ->
  getZoom (engine w) <= 3 ->
  animation (engine w) = Some (EaseTo o) ->
  let w' := complete_rotation_step w in
  let o' := westward (ease_center o) (spin_increment (getZoom (engine w))) in
  rotation_cleanup w' = Some i
  /\ listeners (engine w') = rotation_listeners i
  /\ userInteracting w' i = false
  /\ getZoom (engine w') = getZoom (engine w)
  /\ getCenter (engine w') = ease_center o
  /\ animation (engine w') = Some (EaseTo o')
  /\ issued (engine w') = issued (engine w) ++ [EaseTo o'].
Proof.
  intros C Hl Hu Hz Ha w' o'. subst w'. unfold complete_rotation_step. rewrite Ha.
  set (w0 := with_engine end_animation
               (step w (CameraMoved (getZoom (engine w)) (ease_center o)))).
  change (step (step w (CameraMoved (getZoom (engine w)) (ease_center o)))
               (MapEvent moveend))
    with (fire moveend w0).
  assert (Hl0 : listeners (engine w0) = rotation_listeners i) by exact Hl.
  destruct (fire_registered i w0 Hl0) as [_ [_ [_ [_ [_ E]]]]]. rewrite E.
  assert (Hu0 : userInteracting w0 i = false) by exact Hu.
  assert (Hz0 : getZoom (engine w0) < 5).
  { change (getZoom (engine w0)) with (getZoom (engine w)). lra. }
  rewrite (spinGlobe_spinning i w0 Hu0 Hz0).
  change (getZoom (engine w0)) with (getZoom (engine w)).
  change (getCenter (engine w0)) with (ease_center o).
  simpl. repeat split; assumption.
Qed.

(** X13. One revolution in 120 steps.  While an effect run is live and
    spinning at zoom 3 or less, each rotation step that the engine brings
    to its end is followed at once by the next.  When the step under way
    targets a whole number of degrees [m] (as every step does that
    started from the intro view at longitude 0), then after [n] completed
    steps, as long as [|m| + 3 n] stays below 2^53, the step under way
    targets the longitude [m - 3 n] exactly, at the same latitude, and [n]
    more rotation steps have been issued; after 120 of them the target is
    a full 360 degrees further west. *)
Theorem one_revolution_in_120_steps (mobile ref : bool) (evs : list Event)
    (i : nat) (o : EaseToOptions) (m : Z) (n : nat) :
  let w := run evs (mount mobile ref) in
  rotation_cleanup w = Some i ->
  userInteracting w i = false ->
  getZoom (engine w) <= 3 ->
  animation (engine w) = Some (EaseTo o) ->
  lng (ease_center o) == inject_Z m ->
  (Z.abs m + 3 * Z.of_nat n < 2 ^ 53)%Z ->
  let w' := repeat_step n complete_rotation_step w in
  exists o',
    animation (engine w') = Some (EaseTo o')
    /\ lng (ease_center o') == inject_Z m - 3 * inject_Z (Z.of_nat n)
    /\ lat (ease_center o') = lat (ease_center o)
    /\ (n = 120%nat -> lng (ease_center o') == lng (ease_center o) - 360)
    /\ List.length (rotation_steps (issued (engine w')))
       = (List.length (rotation_steps (issued (engine w))) + n)%nat
    /\ userInteracting w' i = false.
Proof.
  intros w C Hu Hz Ha Hm Hb w'.
  assert (Hl : listeners (engine w) = rotation_listeners i).
  { destruct (run_consistent evs (mount mobile ref) (mount_consistent mobile ref))
      as [_ H]. fold w in H. rewrite C in H. apply H. }
  assert (G : forall n w0 o0 m0,
            rotation_cleanup w0 = Some i ->
            listeners (engine w0) = rotation_listeners i ->
            userInteracting w0 i = false ->
            getZoom (engine w0) <= 3 ->
            animation (engine w0) = Some (EaseTo o0) ->
            lng (ease_center o0) == inject_Z m0 ->
            (Z.abs m0 + 3 * Z.of_nat n < 2 ^ 53)%Z ->
            exists o',
              animation (engine (repeat_step n complete_rotation_step w0))
              = Some (EaseTo o')
              /\ lng (ease_center o') == inject_Z m0 - 3 * inject_Z (Z.of_nat n)
              /\ lat (ease_center o') = lat (ease_center o0)
              /\ List.length (rotation_steps
                                (issued (engine (repeat_step n complete_rotation_step w0))))
                 = (List.length (rotation_steps (issued (engine w0))) + n)%nat
              /\ userInteracting (repeat_step n complete_rotation_step w0) i = false).
  { clear. induction n as [|n IH]; intros w0 o0 m0 C Hl Hu Hz Ha Hm Hb.
    - exists o0. simpl. split; [exact Ha|]. split; [rewrite Hm; ring|].
      split; [reflexivity|]. split; [lia|exact Hu].
    - destruct (complete_rotation_step_slow i w0 o0 C Hl Hu Hz Ha)
        as [C1 [Hl1 [Hu1 [Hz1 [_ [Ha1 Hi1]]]]]].
      change (2 ^ 53)%Z with 9007199254740992%Z in Hb.
      assert (Hm1 : lng (ease_center
                           (westward (ease_center o0)
                                     (spin_increment (getZoom (engine w0)))))
                    == inject_Z (m0 - 3)).
      { unfold westward, js_sub. cbn [ease_center lng].
        assert (E : lng (ease_center o0) - spin_increment (getZoom (engine w0))
                    == inject_Z (m0 - 3)).
        { rewrite (proj1 (spin_increment_by_zoom _) Hz), Hm.
          unfold Z.sub. rewrite inject_Z_plus, inject_Z_opp.
          change (inject_Z 3) with (3 : Q). ring. }
        rewrite E. apply binary64_Z.
        change (2 ^ 53)%Z with 9007199254740992%Z. lia. }
      assert (Hz' : getZoom (engine (complete_rotation_step w0)) <= 3)
        by now rewrite Hz1.
      assert (Hb1 : (Z.abs (m0 - 3) + 3 * Z.of_nat n < 2 ^ 53)%Z).
      { change (2 ^ 53)%Z with 9007199254740992%Z. lia. }
      destruct (IH _ _ _ C1 Hl1 Hu1 Hz' Ha1 Hm1 Hb1) as [o' [A [B [L [N U]]]]].
      exists o'. simpl repeat_step. split; [exact A|]. split.
      + rewrite B. rewrite Nat2Z.inj_succ, <- Z.add_1_r, inject_Z_plus.
        unfold Z.sub. rewrite inject_Z_plus, inject_Z_opp.
        change (inject_Z 3) with (3 : Q). change (inject_Z 1) with (1 : Q). ring.
      + split; [exact L|]. split; [|exact U].
        rewrite N, Hi1. unfold rotation_steps. rewrite filter_app, length_app.
        simpl. lia. }
  destruct (G n w o m C Hl Hu Hz Ha Hm Hb) as [o' [A [B [L [N U]]]]].
  exists o'. split; [exact A|]. split; [exact B|]. split; [exact L|].
  split; [|split; [exact N|exact U]].
  intros ->. rewrite B, Hm. reflexivity.
Qed.

Lemma one_revolution_in_120_steps_witness :
  let w := run [OnLoad] (mount false true) in
  let w' := repeat_step 120 complete_rotation_step w in
  exists o', animation (engine w') = Some (EaseTo o')
             /\ lng (ease_center o') == - 363.
Proof.
  intros w w'.
  assert (Ha : exists o, animation (engine w) = Some (EaseTo o)
                         /\ lng (ease_center o) == inject_Z (-3))
    by (eexists; split; vm_compute; reflexivity).
  destruct Ha as [o [Ha Ho]].
  assert (Hz : getZoom (engine w) <= 3) by (vm_compute; discriminate).
  assert (Hb : (Z.abs (-3) + 3 * Z.of_nat 120 < 2 ^ 53)%Z)
    by (vm_compute; reflexivity).
  destruct (one_revolution_in_120_steps false true [OnLoad] 0 o (-3) 120
              eq_refl eq_refl Hz Ha Ho Hb) as [o' [A [B _]]].
  exists o'. split; [exact A|]. rewrite B. reflexivity.
Defined.

(** ** Repetition, and the scroll panel against the map *)

Lemma handleStepEnter_idempotent (e : StepEnterEvent) (s : Session) :
  handleStepEnter e (handleStepEnter e s) = handleStepEnter e s.
Proof.
  unfold handleStepEnter. destruct (freeMode s) eqn:Ef; [now rewrite Ef|].
  destruct (find_layer (data_id (data e))) eqn:El.
  - cbn [freeMode setVisibleId setActiveLayer]. now rewrite Ef.
  - now rewrite Ef.
Qed.

Lemma selectChapter_idempotent (c : string) (s : Session) :
  selectChapter c (selectChapter c s) = selectChapter c s.
Proof.
  rewrite !selectChapter_find. destruct (find_layer c); reflexivity.
Qed.

Lemma handlers_keep_flags (s : Session) :
  (forall e, freeMode (handleStepEnter e s) = freeMode s
             /\ isMobile (handleStepEnter e s) = isMobile s)
  /\ (forall c, freeMode (selectChapter c s) = freeMode s
                /\ isMobile (selectChapter c s) = isMobile s).
Proof.
  split.
  - intros e. unfold handleStepEnter. destruct (freeMode s) eqn:Ef; [auto|].
    destruct (find_layer _); simpl; auto.
  - intros c. rewrite selectChapter_find. destruct (find_layer c); simpl; auto.
Qed.

(** X14. Repetition is harmless.  A scroll notification delivered twice
    in a row, or a picker entry clicked twice in a row, leaves the
    component exactly where the first one left it (no second fly-to, no
    effect re-run); and two clicks on the free-mode toggle bring the
    component back to exactly the state before the first. *)
Theorem repeated_events_are_absorbed (w : World) (e : StepEnterEvent) (c : string) :
  step (step w (StepEnter e)) (StepEnter e) = step w (StepEnter e)
  /\ step (step w (PickerClick c)) (PickerClick c) = step w (PickerClick c)
  /\ step (step w ToggleClick) ToggleClick = w.
Proof.
  destruct (handlers_keep_flags (session w)) as [K1 K2].
  split; [|split]; simpl.
  - destruct (scroll_panel_rendered (session w)) eqn:R; [|now rewrite R].
    rewrite session_update. unfold scroll_panel_rendered in *.
    destruct (K1 e) as [-> ->]. rewrite R.
    apply update_noop. rewrite session_update. apply handleStepEnter_idempotent.
  - destruct (picker_rendered (session w)) eqn:R; [|now rewrite R].
    rewrite session_update. unfold picker_rendered in *.
    destruct (K2 c) as [-> _]. rewrite R.
    apply update_noop. rewrite session_update. apply selectChapter_idempotent.
  - destruct (toggle_rendered (session w)) eqn:R; [|now rewrite R].
    assert (U : forall w0, update toggleFreeMode w0 = with_session toggleFreeMode w0).
    { intros w0. unfold update. now apply commit_same_deps. }
    rewrite !U. unfold toggle_rendered in *. simpl. rewrite R.
    destruct w as [[a v fm im ml] r en ui er rc].
    unfold with_session, toggleFreeMode, setFreeMode. simpl.
    now rewrite Bool.negb_involutive.
Qed.

(** X15. As long as the chapter picker has not been used, the scroll
    panel and the map agree: either no scroll notification has taken
    effect yet, nothing is faded in and the first catalog chapter is
    active, or the faded-in step is the step of the active chapter. *)
Theorem scroll_panel_agrees_with_map (mobile ref : bool) (evs : list Event) :
  forallb not_a_pick evs = true ->
  let s := session (run evs (mount mobile ref)) in
  (visibleId s = None /\ activeLayer s = LAYERS_0)
  \/ visibleId s = Some (id (activeLayer s)).
Proof.
  intros Hev.
  assert (G : forall evs w,
            forallb not_a_pick evs = true ->
            ((visibleId (session w) = None /\ activeLayer (session w) = LAYERS_0)
             \/ visibleId (session w) = Some (id (activeLayer (session w)))) ->
            (visibleId (session (run evs w)) = None
             /\ activeLayer (session (run evs w)) = LAYERS_0)
            \/ visibleId (session (run evs w))
               = Some (id (activeLayer (session (run evs w))))).
  { clear. induction evs as [|ev tl IH]; intros w Hev H; simpl; [exact H|].
    simpl in Hev. apply Bool.andb_true_iff in Hev. destruct Hev as [Hn Htl].
    apply IH; [exact Htl|].
    assert (Hsame : forall w0, session w0 = session w ->
              (visibleId (session w0) = None /\ activeLayer (session w0) = LAYERS_0)
              \/ visibleId (session w0) = Some (id (activeLayer (session w0)))).
    { intros w0 E. now rewrite E. }
    destruct ev as [b| |e| |c|t|z ctr]; try discriminate Hn; simpl.
    - exact H.
    - rewrite session_update. exact H.
    - destruct (scroll_panel_rendered (session w)); [|exact H].
      rewrite session_update.
      unfold handleStepEnter. destruct (freeMode (session w)); [exact H|].
      destruct (find_layer (data_id (data e))) as [l|] eqn:El; [|exact H].
      right. apply find_layer_Some in El. destruct El as [_ El].
      cbn [visibleId activeLayer setVisibleId setActiveLayer]. now rewrite El.
    - destruct (toggle_rendered (session w)); [|exact H].
      rewrite session_update. exact H.
    - apply Hsame. destruct t.
      + apply (fire_frame mousedown w).
      + apply (fire_frame mouseup w).
      + apply (fire_frame dragend w).
      + apply (fire_frame pitchend w).
      + apply (fire_frame rotateend w).
      + apply (fire_frame moveend (with_engine end_animation w)).
    - exact H. }
  apply G; [exact Hev|]. left. now rewrite mount_session.
Qed.

Lemma scroll_panel_agrees_with_map_witness :
  let e := {| data := {| data_id := "geoglam" |}; direction := down;
              entry := {| isIntersecting := true; intersectionRatio := 1 |};
              index := 4%Z |} in
  let s := session (run [OnLoad; StepEnter e; ToggleClick] (mount false true)) in
  visibleId s = Some (id (activeLayer s)).
Proof.
  intros e s.
  destruct (scroll_panel_agrees_with_map false true [OnLoad; StepEnter e; ToggleClick]
              eq_refl) as [[H _]|H].
  - exfalso. vm_compute in H. discriminate H.
  - exact H.
Defined.

(** ** Overlays of an arbitrary chapter *)

(** X16. For any chapter, in the catalog or not: the raster layer is
    left out exactly when [url] is missing or the empty string; when
    rendered it carries the chapter's own opacity, an opacity of 0
    included, and 0.6 only when the chapter has none; in free mode no
    spotlight mask is rendered whatever the chapter; the mask and the point
    markers are never rendered together, so at most two overlays are on
    the map. *)
Theorem overlays_of_any_chapter (s : Session) :
  let a := activeLayer s in
  (renderRaster s = None <-> url a = None \/ url a = Some "")
  /\ (forall u, url a = Some u -> u <> "" ->
      renderRaster s
      = Some (RasterSource [u] 256 (match opacity a with Some o => o | None => 0.6 end)))
  /\ (freeMode s = true -> renderCountryMask s = None)
  /\ (renderCountryMask s <> None -> renderPOIs s = None)
  /\ (List.length (render_overlays s) <= 2)%nat.
Proof.
  intros a.
  assert (Hx : renderCountryMask s <> None -> renderPOIs s = None).
  { unfold renderCountryMask, renderPOIs, includes. fold a. simpl.
    destruct (freeMode s); [intros H; now elim H|].
    destruct (String.eqb_spec (id a) "total-methane") as [E|N1]; simpl.
    - rewrite E. reflexivity.
    - destruct (String.eqb_spec (id a) "grdi-v1") as [E|N2]; simpl.
      + rewrite E. reflexivity.
      + intros H. now elim H. }
  split; [|split; [|split; [|split; [exact Hx|]]]].
  - unfold renderRaster. fold a. destruct (url a) as [[|c u]|]; simpl.
    + split; auto.
    + split; [discriminate|]. intros [H|H]; discriminate H.
    + split; auto.
  - intros u Hu Hne. now apply renderRaster_opacity.
  - intros Hf. unfold renderCountryMask. now rewrite Hf.
  - unfold render_overlays.
    destruct (renderCountryMask s) as [m|] eqn:Em.
    + rewrite Hx by discriminate.
      destruct (renderRaster s); simpl; lia.
    + destruct (renderRaster s), (renderPOIs s); simpl; lia.
Qed.

(** ** Releases and the load event *)

Lemma same_object_refl_id (a : LayerDef) : same_object a a = true.
Proof. apply String.eqb_refl. Qed.

(** X17. Releases do not add up.  The end of one gesture can bring
    several release notifications (pointer up, drag end, rotate end, pitch
    end).  While an effect run is live, two releases in a row leave the
    run spinning; below zoom 5 each of them issues rotation steps, and
    every step either of them issues is the same one, the step from the
    current centre by the increment of the current zoom, which is then
    the animation under way; at zoom 5 or more neither issues anything. *)
Theorem releases_do_not_add_up (mobile ref : bool) (evs : list Event) (i : nat)
    (t1 t2 : EventType) :
  let w := run evs (mount mobile ref) in
  rotation_cleanup w = Some i ->
  In t1 [mouseup; dragend; pitchend; rotateend] ->
  In t2 [mouseup; dragend; pitchend; rotateend] ->
  let w1 := step w (MapEvent t1) in
  let w2 := step w1 (MapEvent t2) in
  let o := westward (getCenter (engine w)) (spin_increment (getZoom (engine w))) in
  userInteracting w2 i = false
  /\ ((5 <= getZoom (engine w)
       /\ issued (engine w1) = issued (engine w)
       /\ issued (engine w2) = issued (engine w))
      \/ (getZoom (engine w) < 5
          /\ exists sent1 sent2,
               issued (engine w1) = issued (engine w) ++ sent1
               /\ issued (engine w2) = issued (engine w1) ++ sent2
               /\ sent1 <> [] /\ sent2 <> []
               /\ Forall (fun c => c = EaseTo o) (sent1 ++ sent2)
               /\ animation (engine w2) = Some (EaseTo o))).
Proof.
  intros w C H1 H2 w1 w2 o.
  assert (Hl : listeners (engine w) = rotation_listeners i).
  { destruct (run_consistent evs (mount mobile ref) (mount_consistent mobile ref))
      as [_ H]. fold w in H. rewrite C in H. apply H. }
  assert (Hrel : forall t w0, In t [mouseup; dragend; pitchend; rotateend] ->
                   listeners (engine w0) = rotation_listeners i ->
                   step w0 (MapEvent t) = resume i w0).
  { intros t w0 Ht Hl0.
    destruct (fire_registered i w0 Hl0) as [_ [Eup [Edrag [Epitch [Erot _]]]]].
    simpl in Ht. destruct Ht as [<-|[<-|[<-|[<-|[]]]]]; assumption. }
  assert (E1 : w1 = resume i w) by (apply Hrel; assumption).
  assert (Hl1 : listeners (engine w1) = rotation_listeners i).
  { rewrite E1. unfold resume.
    destruct (spinGlobe_frame i (set_userInteracting i false w))
      as [_ [_ [_ [_ [_ [F _]]]]]]. now rewrite F. }
  assert (E2 : w2 = resume i w1) by (apply Hrel; assumption).
  set (a := set_userInteracting i false w) in *.
  set (b := set_userInteracting i false w1) in *.
  assert (Ha : userInteracting a i = false) by (simpl; now rewrite Nat.eqb_refl).
  assert (Hb : userInteracting b i = false) by (simpl; now rewrite Nat.eqb_refl).
  destruct (spinGlobe_frame i a) as [_ [_ [_ [_ [_ [_ [Fz [Fc _]]]]]]]].
  destruct (spinGlobe_frame i b) as [_ [_ [Fu _]]].
  assert (Ez : getZoom (engine b) = getZoom (engine w)).
  { change (getZoom (engine b)) with (getZoom (engine w1)).
    rewrite E1. unfold resume. fold a. now rewrite Fz. }
  assert (Ec : getCenter (engine b) = getCenter (engine w)).
  { change (getCenter (engine b)) with (getCenter (engine w1)).
    rewrite E1. unfold resume. fold a. now rewrite Fc. }
  split.
  - rewrite E2. unfold resume. fold b. now rewrite Fu.
  - destruct (Qlt_le_dec (getZoom (engine w)) 5) as [Z|Z].
    + right. split; [exact Z|].
      assert (Sa : spinGlobe i a = with_engine (map_easeTo o) a)
        by (apply (spinGlobe_spinning i a Ha); exact Z).
      assert (Sb : spinGlobe i b = with_engine (map_easeTo o) b).
      { unfold o. rewrite <- Ez, <- Ec. apply (spinGlobe_spinning i b Hb).
        rewrite Ez. exact Z. }
      exists [EaseTo o], [EaseTo o].
      split; [rewrite E1; unfold resume; fold a; now rewrite Sa|].
      split; [rewrite E2; unfold resume; fold b; now rewrite Sb|].
      split; [discriminate|]. split; [discriminate|].
      split; [repeat constructor|].
      rewrite E2. unfold resume. fold b. now rewrite Sb.
    + left. split; [exact Z|].
      destruct (spinGlobe_threshold i a Ha) as [Ga _].
      destruct (spinGlobe_threshold i b Hb) as [Gb _].
      rewrite Ez in Gb.
      assert (I1 : issued (engine w1) = issued (engine w)).
      { rewrite E1. unfold resume. fold a. now rewrite (Ga Z). }
      split; [exact I1|].
      rewrite E2. unfold resume. fold b. rewrite (Gb Z). exact I1.
Qed.

Lemma releases_do_not_add_up_witness :
  let w := run [OnLoad] (mount false true) in
  let w2 := step (step w (MapEvent mouseup)) (MapEvent dragend) in
  userInteracting w2 0%nat = false
  /\ exists o, animation (engine w2) = Some (EaseTo o).
Proof.
  intros w w2.
  assert (H1 : In mouseup [mouseup; dragend; pitchend; rotateend]) by (simpl; auto).
  assert (H2 : In dragend [mouseup; dragend; pitchend; rotateend]) by (simpl; auto).
  destruct (releases_do_not_add_up false true [OnLoad] 0 mouseup dragend
              eq_refl H1 H2) as [U [[Z _]|[_ [s1 [s2 [_ [_ [_ [_ [_ A]]]]]]]]]].
  - exfalso. revert Z. vm_compute. intros Z. now apply Z.
  - split; [exact U|]. eexists. exact A.
Defined.

(** X18. The load event outside the intro chapter.  When the map
    reports its load while a chapter other than the intro chapter is
    active, the auto-rotation effect sends exactly one [stop] and the
    camera-transition effect does not run: whatever animation was under
    way, a fly-to to the active chapter included, is ended and no fly-to
    is issued in its place. *)
Theorem load_outside_intro_sends_stop (mobile ref : bool) (evs : list Event) :
  let w := run evs (mount mobile ref) in
  mapLoaded (session w) = false ->
  id (activeLayer (session w)) <> "intro-globe" ->
  let w' := step w OnLoad in
  issued (engine w') = issued (engine w) ++ [Stop]
  /\ animation (engine w') = None
  /\ listeners (engine w') = []
  /\ rotation_cleanup w' = None
  /\ mapLoaded (session w') = true
  /\ activeLayer (session w') = activeLayer (session w).
Proof.
  intros w L N w'.
  destruct (reachable_log mobile ref evs) as [Hc [Hq _]]. fold w in Hc, Hq.
  assert (C : rotation_cleanup w = None) by apply Hq, L.
  assert (Hl : listeners (engine w) = []).
  { destruct Hc as [_ Hc]. rewrite C in Hc. apply Hc. }
  set (w0 := with_session (setMapLoaded true) (set_mapRef true w)).
  assert (Er : rotationEffect w0 = set_cleanup None (with_engine map_stop w0)).
  { unfold rotationEffect. simpl.
    apply String.eqb_neq in N. now rewrite N. }
  assert (E : w' = set_cleanup None (with_engine map_stop w0)).
  { subst w'. simpl. unfold update, commit. fold w0.
    change (session w0) with (setMapLoaded true (session w)).
    change (rotation_cleanup w0) with (rotation_cleanup w).
    simpl mapLoaded. simpl activeLayer. rewrite L, C. simpl.
    rewrite same_object_refl_id. exact Er. }
  rewrite E. simpl. repeat split; assumption.
Qed.

Lemma load_outside_intro_sends_stop_witness :
  let e := {| data := {| data_id := "total-methane" |}; direction := down;
              entry := {| isIntersecting := true; intersectionRatio := 1 |};
              index := 1%Z |} in
  let w := run [StepEnter e] (mount false true) in
  exists o, animation (engine w) = Some (FlyTo o)
            /\ animation (engine (step w OnLoad)) = None
            /\ fly_requests (issued (engine (step w OnLoad)))
               = fly_requests (issued (engine w)).
Proof.
  intros e w.
  assert (L : mapLoaded (session w) = false) by (vm_compute; reflexivity).
  assert (N : id (activeLayer (session w)) <> "intro-globe") by (vm_compute; discriminate).
  destruct (load_outside_intro_sends_stop false true [StepEnter e] L N)
    as [Hi [Ha _]].
  eexists. split; [vm_compute; reflexivity|]. split; [exact Ha|].
  fold w in Hi. rewrite Hi. unfold fly_requests. rewrite filter_app.
  apply app_nil_r.
Defined.
